(** * RAGMLCore documentation tooling: crawler and essentials sync

    A shallow embedding of [Docs/fetch_module_docs.py] (the breadth-first
    documentation crawler [fetch_module]) and of [Docs/_populate_essentials.py]
    ([PATTERN], [copy_file] and [process_directory]), with the properties of
    the specification proved or refuted against them. *)

From stdpp Require Import gmap strings list pretty.
From Stdlib Require Import ZArith Ascii String QArith.

#[local] Set Warnings "-clear-no-such-hyp".

Local Open Scope string_scope.
Local Open Scope list_scope.
Local Open Scope Z_scope.

(** ** Python strings *)

Module PyStr.

(** [s.startswith(p)] *)
Definition startswith (s p : string) : bool := String.prefix p s.

(** [s.replace(old, new)] for one-character [old] and [new]. *)
Fixpoint replace (old new : ascii) (s : string) : string :=
  match s with
  | EmptyString => EmptyString
  | String a s' =>
      String (if Ascii.eqb a old then new else a) (replace old new s')
  end.

(** [s.lstrip(c)] for a one-character set [c]. *)
Fixpoint lstrip (c : ascii) (s : string) : string :=
  match s with
  | EmptyString => EmptyString
  | String a s' => if Ascii.eqb a c then lstrip c s' else s
  end.

(** [s.rstrip(c)] for a one-character set [c]. *)
Fixpoint rstrip (c : ascii) (s : string) : string :=
  match s with
  | EmptyString => EmptyString
  | String a s' =>
      match rstrip c s' with
      | EmptyString => if Ascii.eqb a c then EmptyString else String a EmptyString
      | r => String a r
      end
  end.

(** [s.strip(c)] *)
Definition strip (c : ascii) (s : string) : string := rstrip c (lstrip c s).

(** [sub in s] *)
Fixpoint contains (s sub : string) : bool :=
  String.prefix sub s ||
  match s with
  | EmptyString => false
  | String _ s' => contains s' sub
  end.

(** [s[:-n]] *)
Definition drop_last (n : nat) (s : string) : string :=
  String.substring 0 (String.length s - n) s.

(** [str(z)] for an [int]. *)
Definition of_int (z : Z) : string := pretty z.

End PyStr.

(** ** Python values

    The values [json.load] produces, and the values a function returns.
    A [dict] keeps its items in insertion order, which is the order
    [values()] iterates in. *)

#[warnings="-register-all"]
Inductive value : Type :=
| VNone
| VBool (b : bool)
| VInt (z : Z)
| VFloat (q : Q)
| VStr (s : string)
| VList (l : list value)
| VTuple (l : list value)
| VDict (items : list (string * value)).

(** Truth value of an object, as [or] tests it. *)
Definition truthy (v : value) : bool :=
  match v with
  | VNone => false
  | VBool b => b
  | VInt z => negb (z =? 0)
  | VFloat q => negb (Qnum q =? 0)
  | VStr s => negb (String.eqb s "")
  | VList l | VTuple l => negb (Nat.eqb (List.length l) 0)
  | VDict items => negb (Nat.eqb (List.length items) 0)
  end.

(** [a or b] *)
Definition py_or (a b : value) : value := if truthy a then a else b.

(** [d.get(key, default)] on the items of a dict. *)
Fixpoint dict_get (items : list (string * value)) (key : string) (default : value)
  : value :=
  match items with
  | [] => default
  | (k, v) :: items' => if String.eqb k key then v else dict_get items' key default
  end.

(** [d.values()] *)
Definition dict_values (items : list (string * value)) : list value :=
  List.map snd items.

(** ** The crawler's environment *)

(** Exceptions that escape [fetch_module]. *)
Inductive exn : Type :=
| OSError
| AttributeError.

(** What [urllib.request.urlopen(url)] followed by [json.load] does. *)
Inductive response : Type :=
| Loaded (data : value)
| HTTPError (code : Z)
| OtherError (exc : string).

(** The outside world of a run: the remote service and the local disk. *)
Record world : Type := {
  makedirs : string -> bool;
  urlopen : string -> response;
  can_write : string -> string -> bool
}.

(** Lines printed by [fetch_module]. *)
Inductive line : Type :=
| ReachedLimit (limit : Z) (module : string)
| HTTPErrorLine (code : Z) (url : string)
| ErrorLine (exc : string)
| Saved (path : string).

Definition render (l : line) : string :=
  match l with
  | ReachedLimit limit module =>
      "Reached limit (" +:+ PyStr.of_int limit +:+ ") for " +:+ module +:+ "; stopping."
  | HTTPErrorLine code url => "HTTPError " +:+ PyStr.of_int code +:+ " " +:+ url
  | ErrorLine exc => "Error " +:+ exc
  | Saved path => "Saved " +:+ path
  end.

(** The state of the loop. [requested] records, in order, the paths whose
    URL was handed to [urlopen]; [files] is the content of [dest_root]. *)
Record state : Type := {
  queue : list string;
  visited : gset string;
  stdout : list line;
  files : gmap string value;
  requested : list string
}.

Definition BASE_URL : string := "https://developer.apple.com/tutorials/data".

Definition url_of (path : string) : string :=
  BASE_URL +:+ "/" +:+ path +:+ ".json".

Definition file_name_of (path : string) : string :=
  PyStr.replace "/" "_" path +:+ ".json".

Definition seed_of (module : string) : string := "documentation/" +:+ module.

Definition scope_of (module : string) : string := "/documentation/" +:+ module.

(** One round of [for ref in references.values()]. *)
Definition enqueue_ref (module : string) (queue : list string) (ref : value)
  : list string :=
  match ref with
  | VDict items =>
      match py_or (dict_get items "url" VNone) (VStr "") with
      | VStr ref_url =>
          if PyStr.startswith ref_url (scope_of module)
          then queue ++ [PyStr.strip "/" ref_url]
          else queue
      | _ => queue
      end
  | _ => queue
  end.

Definition enqueue_refs (module : string) (refs : list (string * value))
  (queue : list string) : list string :=
  fold_left (enqueue_ref module) (dict_values refs) queue.

(** [len(visited) > limit] when a limit is given. *)
Definition over_limit (limit : option Z) (visited : gset string) : bool :=
  match limit with
  | None => false
  | Some l => Z.of_nat (size visited) >? l
  end.

Inductive step : Type :=
| Continue (s : state)
| Break (s : state)
| Raise (e : exn) (s : state).

Definition state_of_step (r : step) : state :=
  match r with
  | Continue s | Break s | Raise _ s => s
  end.

Section Crawl.

Variable w : world.
Variable module : string.
Variable dest_root : string.
Variable limit : option Z.

(** The body of [while queue:], after [path = queue.pop(0)] left [rest]. *)
Definition body (st : state) (path : string) (rest : list string) : step :=
  if decide (path ∈ visited st) then
    Continue {| queue := rest; visited := visited st; stdout := stdout st;
                files := files st; requested := requested st |}
  else
    let visited' := visited st ∪ {[path]} in
    if over_limit limit visited' then
      Break {| queue := rest; visited := visited';
               stdout := stdout st ++ [ReachedLimit (default 0 limit) module];
               files := files st; requested := requested st |}
    else
      let url := url_of path in
      let requested' := requested st ++ [path] in
      match urlopen w url with
      | HTTPError code =>
          Continue {| queue := rest; visited := visited';
                      stdout := stdout st ++ [HTTPErrorLine code url];
                      files := files st; requested := requested' |}
      | OtherError exc =>
          Continue {| queue := rest; visited := visited';
                      stdout := stdout st ++ [ErrorLine exc];
                      files := files st; requested := requested' |}
      | Loaded data =>
          let file_name := file_name_of path in
          if can_write w dest_root file_name then
            let saved queue' :=
              {| queue := queue'; visited := visited';
                 stdout := stdout st ++ [Saved path];
                 files := <[file_name := data]> (files st);
                 requested := requested' |} in
            match data with
            | VDict items =>
                match dict_get items "references" (VDict []) with
                | VDict refs => Continue (saved (enqueue_refs module refs rest))
                | _ => Raise AttributeError (saved rest)
                end
            | _ => Raise AttributeError (saved rest)
            end
          else
            Raise OSError {| queue := rest; visited := visited';
                             stdout := stdout st; files := files st;
                             requested := requested' |}
      end.

End Crawl.

(** How a call of [fetch_module] ends. [Timeout] is not a Python outcome:
    it is the loop cut off after [fuel] iterations, with the state reached. *)
Inductive outcome : Type :=
| Returned (r : value) (s : state)
| Raised (e : exn) (s : state)
| Timeout (s : state).

Definition state_of (o : outcome) : state :=
  match o with
  | Returned _ s | Raised _ s | Timeout s => s
  end.

Definition terminated (o : outcome) : bool :=
  match o with
  | Timeout _ => false
  | _ => true
  end.

(** [while queue: ...], then the implicit [return None]. *)
Fixpoint loop (w : world) (module dest_root : string) (limit : option Z)
  (fuel : nat) (st : state) : outcome :=
  match queue st with
  | [] => Returned VNone st
  | path :: rest =>
      match fuel with
      | O => Timeout st
      | S fuel' =>
          match body w module dest_root limit st path rest with
          | Continue st' => loop w module dest_root limit fuel' st'
          | Break st' => Returned VNone st'
          | Raise e st' => Raised e st'
          end
      end
  end.

Definition initial (module : string) : state :=
  {| queue := [seed_of module]; visited := ∅; stdout := [];
     files := ∅; requested := [] |}.

Definition fetch_module (w : world) (module dest_root : string)
  (limit : option Z) (fuel : nat) : outcome :=
  if makedirs w dest_root
  then loop w module dest_root limit fuel (initial module)
  else Raised OSError {| queue := []; visited := ∅; stdout := [];
                         files := ∅; requested := [] |}.

(** A document whose [references] mapping holds one descriptor per pair
    (key, url). *)
Definition doc_with_refs (refs : list (string * string)) : value :=
  VDict [("references",
          VDict (List.map (fun kv => (fst kv, VDict [("url", VStr (snd kv))])) refs))].

(** A world serving the documents of a table, [HTTPError 404] elsewhere,
    where every write succeeds. *)
Definition serve (docs : list (string * value)) : world :=
  {| makedirs := fun _ => true;
     urlopen := fun url =>
       match List.find (fun d => String.eqb (url_of (fst d)) url) docs with
       | Some d => Loaded (snd d)
       | None => HTTPError 404
       end;
     can_write := fun _ _ => true |}.

Definition widgets : world :=
  serve [("documentation/Widgets",
          doc_with_refs [("r1", "/documentation/Widgets/Gadget");
                         ("r2", "/documentation/Other/Thing")]);
         ("documentation/Widgets/Gadget", doc_with_refs [])].

(** ** The essentials sync: [copy_file]

    A directory is the list of its entries, in the order [os.listdir] gives
    them: each a name with what it names, a regular file with its content
    or a sub-directory, which [shutil.copy2] refuses to read. [None] is a
    directory that does not exist. A target name is taken without a path
    separator, so that joined to a directory it names an entry of it, the
    directory itself or its parent; the properties say so where it
    matters. The files are readable and writable by the caller (the mode
    bits [shutil.copy2] copies along are not part of the content kept
    here), and the destination directory, which the caller
    [process_directory] creates, can be written to. *)

Module Essentials.

Inductive entry : Type :=
| File (content : string)
| Folder.

Definition directory : Type := list (string * entry).

(** [os.listdir(d)] *)
Definition listdir (d : directory) : list string := List.map fst d.

(** Joined to a directory, the name is that directory again (the empty
    name and [.]) or its parent ([..]); [os.listdir] lists none of them. *)
Definition names_directory (name : string) : bool :=
  String.eqb name "" || String.eqb name "." || String.eqb name "..".

(** [os.path.exists(os.path.join(d, name))] *)
Definition exists_in (d : option directory) (name : string) : bool :=
  match d with
  | None => false
  | Some entries =>
      names_directory name || List.existsb (String.eqb name) (listdir entries)
  end.

(** Content of the regular file [name]; [None] when there is no entry of
    that name or the entry is a directory. *)
Fixpoint read (entries : directory) (name : string) : option string :=
  match entries with
  | [] => None
  | (n, e) :: entries' =>
      if String.eqb n name then
        match e with
        | File c => Some c
        | Folder => None
        end
      else read entries' name
  end.

(** [shutil.copy2(join(src, name), join(dest, name))]; [None] when the
    call raises, the source not being a regular file
    ([IsADirectoryError], [FileNotFoundError]). *)
Definition copy2 (src : option directory) (name : string)
  (dest : gmap string string) : option (gmap string string) :=
  match src with
  | None => None
  | Some entries =>
      match read entries name with
      | Some content => Some (<[name := content]> dest)
      | None => None
      end
  end.

(** [list.sort(key=len)]: a stable sort by length. [String.length] counts
    one-byte characters, which is what [len] counts on a name of ASCII
    characters. *)
Fixpoint insert_by_len (x : string) (l : list string) : list string :=
  match l with
  | [] => [x]
  | y :: l' =>
      if (String.length x <=? String.length y)%nat
      then x :: l
      else y :: insert_by_len x l'
  end.

Definition sort_by_len (l : list string) : list string :=
  List.fold_right insert_by_len [] l.

(** The pair [copy_file] returns, with the destination directory after
    the call; [None] when [copy2] raises: nothing in [copy_file] catches
    that. *)
Definition copy_file (raw_dir : option directory) (dest_dir : gmap string string)
  (target_name : string)
  : option ((option string * option string) * gmap string string) :=
  if exists_in raw_dir target_name then
    match copy2 raw_dir target_name dest_dir with
    | Some dest' => Some ((Some target_name, None), dest')
    | None => None
    end
  else
    let base := PyStr.drop_last 5 target_name in
    match raw_dir with
    | None => Some ((None, Some target_name), dest_dir)
    | Some entries =>
        let candidates :=
          List.filter (fun name => PyStr.startswith name base) (listdir entries) in
        match sort_by_len candidates with
        | chosen :: _ =>
            match copy2 raw_dir chosen dest_dir with
            | Some dest' => Some ((Some chosen, None), dest')
            | None => None
            end
        | [] => Some ((None, Some target_name), dest_dir)
        end
    end.

End Essentials.

(** ** Sample inputs *)

Definition cycle_world : world :=
  serve [("documentation/Widgets",
          doc_with_refs [("b", "/documentation/Widgets/Gadget")]);
         ("documentation/Widgets/Gadget",
          doc_with_refs [("a", "/documentation/Widgets")])].

Definition fanout : world :=
  serve [("documentation/Widgets",
          doc_with_refs [("r1", "/documentation/Widgets/Gadget");
                         ("r2", "/documentation/Widgets/Gizmo")]);
         ("documentation/Widgets/Gadget", doc_with_refs []);
         ("documentation/Widgets/Gizmo", doc_with_refs [])].

Definition read_only_gadget : world :=
  {| makedirs := makedirs fanout;
     urlopen := urlopen fanout;
     can_write := fun _ name =>
       negb (String.eqb name "documentation_Widgets_Gadget.json") |}.

Definition flaky : world :=
  {| makedirs := fun _ => true;
     urlopen := fun _ => OtherError "timed out";
     can_write := fun _ _ => true |}.

Definition selfref : world :=
  serve [("documentation/Widgets",
          doc_with_refs [("r1", "/documentation/Widgets")])].

(** The Widgets fan-out after its seed was saved. *)
Definition seed_saved : state :=
  {| queue := ["documentation/Widgets/Gadget"; "documentation/Widgets/Gizmo"];
     visited := {["documentation/Widgets"]};
     stdout := [Saved "documentation/Widgets"]; files := ∅;
     requested := ["documentation/Widgets"] |}.

(** A state of the Widgets crawl whose next path the service does not know. *)
Definition gone_next : state :=
  {| queue := ["documentation/Widgets/Gone"; "documentation/Widgets/Gadget"];
     visited := {["documentation/Widgets"]}; stdout := []; files := ∅;
     requested := ["documentation/Widgets"] |}.

(** A raw directory where [foo.json] is absent and three names start
    with [foo]. *)
Definition raw_sample : Essentials.directory :=
  [("foo_bar_baz.json", Essentials.File "1"); ("foo_x.json", Essentials.File "2");
   ("foo_y.json", Essentials.File "3"); ("zzz.json", Essentials.File "4")].


(** A service where the Widgets page links to a page of WidgetsExtra. *)
Definition sibling_world : world :=
  serve [("documentation/Widgets",
          doc_with_refs [("r1", "/documentation/WidgetsExtra/Thing")]);
         ("documentation/WidgetsExtra/Thing", doc_with_refs [])].

(** ** Notions used by the properties *)

(** A module name the scope check is sound for: not empty and not ending
    in a path separator (in particular, any single namespace segment). *)
Definition module_ok (module : string) : bool :=
  negb (String.eqb module "") && String.eqb (PyStr.rstrip "/" module) module.

(** The path begins with the string [documentation/<module>], which is
    what the crawler tests. *)
Definition in_scope (module path : string) : bool :=
  PyStr.startswith path (seed_of module).

(** The path lies in the namespace of the module: it is
    [documentation/<module>] itself or a path below it. *)
Definition in_namespace (module path : string) : bool :=
  String.eqb path (seed_of module)
  || PyStr.startswith path (seed_of module +:+ "/").

(** The path a reference value contributes to the queue, if any. *)
Definition ref_target (module : string) (ref : value) : option string :=
  match ref with
  | VDict items =>
      match dict_get items "url" VNone with
      | VStr ref_url =>
          if PyStr.startswith ref_url (scope_of module)
          then Some (PyStr.strip "/" ref_url)
          else None
      | _ => None
      end
  | _ => None
  end.

(** The state in which a failed [os.makedirs] leaves the call. *)
Definition untouched : state :=
  {| queue := []; visited := ∅; stdout := []; files := ∅; requested := [] |}.

(** Requested paths are distinct, were marked visited first, and are
    counted by the limit. *)
Definition requested_ok (limit : option Z) (st : state) : Prop :=
  NoDup (requested st)
  ∧ (∀ p, p ∈ requested st → p ∈ visited st)
  ∧ (∀ l, limit = Some l →
       requested st = [] ∨ (Z.of_nat (List.length (requested st)) <= l)%Z).

(** Everything queued or requested lies under [documentation/<module>]. *)
Definition scoped (module : string) (st : state) : Prop :=
  Forall (λ p, in_scope module p = true) (queue st)
  ∧ Forall (λ p, in_scope module p = true) (requested st).

(** The paths a fetch of [path] contributes to the queue. *)
Definition links (w : world) (module path : string) : list string :=
  match urlopen w (url_of path) with
  | Loaded (VDict items) =>
      match dict_get items "references" (VDict []) with
      | VDict refs => omap (ref_target module) (dict_values refs)
      | _ => []
      end
  | _ => []
  end.

(** [U] holds the seed and every path linked from a path of [U]: the
    reference graph reachable from the seed is finite. *)
Definition closed (w : world) (module : string) (U : list string) : Prop :=
  seed_of module ∈ U ∧ ∀ p p', p ∈ U → p' ∈ links w module p → p' ∈ U.

(** Queue entries the unvisited paths of [U] may still produce. *)
Fixpoint pending (w : world) (module : string) (visited : gset string)
  (U : list string) : nat :=
  match U with
  | [] => 0
  | p :: U' =>
      ((if decide (p ∈ visited) then 0 else List.length (links w module p))
       + pending w module visited U')%nat
  end.

Definition budget (w : world) (module : string) (U : list string) (st : state)
  : nat :=
  (List.length (queue st) + pending w module (visited st) U)%nat.

(** The fetch of [path] yields a document. *)
Definition loaded (w : world) (path : string) : bool :=
  match urlopen w (url_of path) with
  | Loaded _ => true
  | _ => false
  end.

Definition is_saved (l : line) : bool :=
  match l with
  | Saved _ => true
  | _ => false
  end.

Definition is_failure (l : line) : bool :=
  match l with
  | HTTPErrorLine _ _ | ErrorLine _ => true
  | _ => false
  end.

(** One [Saved] line per document fetched, one error line per failed fetch. *)
Definition tallied (w : world) (st : state) : Prop :=
  List.length (List.filter is_saved (stdout st))
  = List.length (List.filter (loaded w) (requested st))
  ∧ List.length (List.filter is_failure (stdout st))
    = List.length (List.filter (λ p, negb (loaded w p)) (requested st)).

(** The files of [dest_root]: each holds the document of a requested path
    that was fetched and written, under the name derived from that path;
    and each such path has its file. *)
Definition stored (w : world) (dest_root : string) (st : state) : Prop :=
  (∀ name data, files st !! name = Some data →
     ∃ p, p ∈ requested st
       ∧ urlopen w (url_of p) = Loaded data
       ∧ can_write w dest_root (file_name_of p) = true
       ∧ name = file_name_of p)
  ∧ (∀ p data, p ∈ requested st →
       urlopen w (url_of p) = Loaded data →
       can_write w dest_root (file_name_of p) = true →
       is_Some (files st !! file_name_of p)).

(** Every requested document that the run got past was written. *)
Definition written (w : world) (dest_root : string) (st : state) : Prop :=
  ∀ p data, p ∈ requested st → urlopen w (url_of p) = Loaded data →
    can_write w dest_root (file_name_of p) = true.

(** The head of a list is a shortest element of it. *)
Definition shortest_first (l : list string) : Prop :=
  match l with
  | [] => True
  | x :: _ => ∀ y, y ∈ l → (String.length x <= String.length y)%nat
  end.

(** The document is an object whose [references], when present, is an
    object: [data.get] and [references.values()] both work on it. *)
Definition crawlable (data : value) : bool :=
  match data with
  | VDict items =>
      match dict_get items "references" (VDict []) with
      | VDict _ => true
      | _ => false
      end
  | _ => false
  end.

(** ** The essentials sync: [process_directory]

    A folder of the documentation tree: its [README.md] (if any), as the
    text [read()] decodes, its [raw] directory and its [essentials]
    directory (if they exist). A string is its sequence of one-byte
    characters; [PATTERN] admits ASCII characters only, so the names it
    finds have as many characters as bytes. *)

Module Populate.

Import Essentials.

(** A character of the class [[A-Za-z0-9_\-\.\(\):]] of [PATTERN]. *)
Definition name_char (a : ascii) : bool :=
  let n := nat_of_ascii a in
  ((65 <=? n) && (n <=? 90))%nat || ((97 <=? n) && (n <=? 122))%nat
  || ((48 <=? n) && (n <=? 57))%nat
  || Ascii.eqb a "_" || Ascii.eqb a "-" || Ascii.eqb a "." || Ascii.eqb a "("
  || Ascii.eqb a ")" || Ascii.eqb a ":".

(** What follows the literal [p] at the start of [s], if [s] starts with it. *)
Fixpoint after_prefix (p s : string) : option string :=
  match p, s with
  | EmptyString, _ => Some s
  | String a p', String b s' =>
      if Ascii.eqb a b then after_prefix p' s' else None
  | String _ _, EmptyString => None
  end.

(** The text matched by [[class]*\.json] at the start of [s]: the star is
    greedy, so a character of the class is consumed whenever the rest can
    still end in [.json], and the match is the longest one. *)
Fixpoint json_tail (s : string) : option string :=
  match s with
  | EmptyString => None
  | String a s' =>
      match (if name_char a then json_tail s' else None) with
      | Some m => Some (String a m)
      | None => if String.prefix ".json" s then Some ".json" else None
      end
  end.

(** Group 1 of [PATTERN] when it matches at the start of [text]. *)
Definition match_here (text : string) : option string :=
  match after_prefix "essentials/" text with
  | Some (String a s') =>
      if name_char a then option_map (String a) (json_tail s') else None
  | _ => None
  end.

(** [PATTERN.findall]: leftmost matches, none overlapping; [skip] counts
    the characters of the last match still to pass over. *)
Fixpoint findall_from (skip : nat) (text : string) : list string :=
  match text with
  | EmptyString => []
  | String _ text' =>
      match skip with
      | S skip' => findall_from skip' text'
      | O =>
          match match_here text with
          | Some name => name :: findall_from (10 + String.length name) text'
          | None => findall_from 0 text'
          end
      end
  end.

Definition findall (text : string) : list string := findall_from 0 text.

(** [sorted(...)] on strings. *)
Fixpoint insert_sorted (x : string) (l : list string) : list string :=
  match l with
  | [] => [x]
  | y :: l' => if String.leb x y then x :: l else y :: insert_sorted x l'
  end.

Definition sorted (l : list string) : list string :=
  List.fold_right insert_sorted [] l.

(** Truth value of a [str | None]. *)
Definition truthy_name (o : option string) : bool :=
  match o with
  | Some s => negb (String.eqb s "")
  | None => false
  end.

(** [for name in sorted(filenames): ...]; [None] when [copy_file] raises. *)
Fixpoint copy_all (raw_dir : option directory) (names : list string)
  (copied : nat) (missing : list string) (dest_dir : gmap string string)
  : option ((nat * list string) * gmap string string) :=
  match names with
  | [] => Some ((copied, missing), dest_dir)
  | name :: names' =>
      match copy_file raw_dir dest_dir name with
      | None => None
      | Some ((copied_name, missing_name), dest') =>
          if truthy_name copied_name then
            copy_all raw_dir names' (S copied) missing dest'
          else if truthy_name missing_name then
            copy_all raw_dir names' copied
              (missing ++ [default "" missing_name]) dest'
          else copy_all raw_dir names' copied missing dest'
      end
  end.

Record folder : Type := {
  readme : option string;
  raw : option directory;
  essentials : option (gmap string string)
}.

(** [filenames = set(PATTERN.findall(content))] *)
Definition filenames_of (content : string) : list string :=
  remove_dups (findall content).

(** The pair [process_directory] returns, with the folder after the call. *)
Definition process_directory (d : folder)
  : option ((nat * list string) * folder) :=
  match readme d with
  | None => Some ((0%nat, []), d)
  | Some content =>
      match filenames_of content with
      | [] => Some ((0%nat, []), d)
      | filenames =>
          let dest_dir := default ∅ (essentials d) in
          match copy_all (raw d) (sorted filenames) 0 [] dest_dir with
          | Some (result, dest') =>
              Some (result, {| readme := readme d; raw := raw d;
                               essentials := Some dest' |})
          | None => None
          end
      end
  end.

End Populate.

(** A README naming three files, one of them twice and one inside a
    Markdown link, beside a raw directory that holds two of them, one
    under a longer name. *)
Definition readme_sample : string :=
  "See essentials/zeta.json and [beta](essentials/beta.json), then essentials/alpha.json; essentials/zeta.json again.".

Definition folder_sample : Populate.folder :=
  {| Populate.readme := Some readme_sample;
     Populate.raw := Some [("zeta.json", Essentials.File "z");
                           ("beta-v2.json", Essentials.File "b2");
                           ("beta-v10.json", Essentials.File "b10")];
     Populate.essentials := None |}.

(** The names of the raw directory [copy_file] chooses among when the
    target itself is absent. *)
Definition candidates_of (raw_dir : option Essentials.directory)
  (target_name : string) : list string :=
  match raw_dir with
  | Some entries =>
      List.filter
        (λ name, PyStr.startswith name (PyStr.drop_last 5 target_name))
        (Essentials.listdir entries)
  | None => []
  end.

(** The raw directory can serve the target: under its own name, or under
    a name that starts with the target less its last five characters. *)
Definition available (raw_dir : option Essentials.directory)
  (target_name : string) : bool :=
  Essentials.exists_in raw_dir target_name
  || negb (Nat.eqb (List.length (candidates_of raw_dir target_name)) 0).

(** The name [copy_file] copies, if any: it depends on the raw directory
    and the target only. *)
Definition choice (raw_dir : option Essentials.directory)
  (target_name : string) : option string :=
  if Essentials.exists_in raw_dir target_name then Some target_name
  else List.hd_error (Essentials.sort_by_len (candidates_of raw_dir target_name)).

(** Every character of [s] satisfies [p]. *)
Fixpoint all_chars (p : ascii → bool) (s : string) : bool :=
  match s with
  | EmptyString => true
  | String a s' => p a && all_chars p s'
  end.

(** No path separator in the name. *)
Definition flat (name : string) : bool := negb (PyStr.contains name "/").

(** A name of ASCII characters: one byte and one code point each, so
    that [len] and the slice [[:-5]] count what [String.length] counts. *)
Definition one_byte (name : string) : bool :=
  all_chars (λ a, (nat_of_ascii a <? 128)%nat) name.

(** The raw directory has a regular file of that name. *)
Definition holds_file (raw_dir : option Essentials.directory) (name : string)
  : bool :=
  match raw_dir with
  | Some entries =>
      match Essentials.read entries name with
      | Some _ => true
      | None => false
      end
  | None => false
  end.

(** The file names the README of a folder asks for. *)
Definition names_of (d : Populate.folder) : list string :=
  match Populate.readme d with
  | Some content => Populate.filenames_of content
  | None => []
  end.

(** Every entry of the raw directory has a name, as [os.listdir] gives it. *)
Definition named (raw_dir : option Essentials.directory) : Prop :=
  ∀ entries, raw_dir = Some entries →
    Forall (λ name, name ≠ "") (Essentials.listdir entries).

(** The paths the reference graph leads to from the seed of a module. *)
Inductive reachable (w : world) (module : string) : string → Prop :=
| reach_seed : reachable w module (seed_of module)
| reach_link p p' :
    reachable w module p → p' ∈ links w module p → reachable w module p'.

(** No limit line was printed yet, and the visited paths are the
    requested ones, at most [l] of them. *)
Definition under_limit (l : Z) (module : string) (st : state) : Prop :=
  (ReachedLimit l module ∉ stdout st)
  ∧ size (visited st) = List.length (requested st)
  ∧ (Z.of_nat (size (visited st)) <= l)%Z.

(** Every link of a requested path is visited or waits in the queue, and
    what is visited or queued is reachable. *)
Definition covering (w : world) (module : string) (st : state) : Prop :=
  (∀ p, p ∈ visited st ↔ p ∈ requested st)
  ∧ (∀ p p', p ∈ requested st → p' ∈ links w module p →
       p' ∈ visited st ∨ p' ∈ queue st)
  ∧ (∀ p, p ∈ requested st ∨ p ∈ queue st → reachable w module p).

Ltac body_cases :=
  unfold body; repeat (case_decide || case_match); simpl in *.

(** * Properties *)

(** ** Strings *)

Section StringFacts.

Implicit Types (s p r : string) (c : ascii).

Lemma str_app_cons a s p : String a s +:+ p = String a (s +:+ p).
Proof. reflexivity. Qed.

Lemma str_app_nil p : "" +:+ p = p.
Proof. reflexivity. Qed.

Lemma str_app_assoc s p r : (s +:+ p) +:+ r = s +:+ (p +:+ r).
Proof.
  induction s as [|a s IH]; [done |]. by rewrite !str_app_cons, IH.
Qed.

Lemma str_prefix_app p r : String.prefix p (p +:+ r) = true.
Proof.
  induction p as [|a p IH].
  - by destruct r.
  - rewrite str_app_cons. simpl. destruct (ascii_dec a a); [done | congruence].
Qed.

Lemma str_prefix_split p s : String.prefix p s = true → ∃ r, s = p +:+ r.
Proof.
  revert s. induction p as [|a p IH]; intros s H.
  - by exists s.
  - destruct s as [|b s]; simpl in H; [done |].
    destruct (ascii_dec a b) as [->|]; [| done].
    destruct (IH _ H) as [r ->]. by exists r.
Qed.

Lemma contains_unfold s sub :
  PyStr.contains s sub
  = String.prefix sub s
    || match s with
       | EmptyString => false
       | String _ s' => PyStr.contains s' sub
       end.
Proof. by destruct s. Qed.

Lemma contains_app s sub r : PyStr.contains (s +:+ (sub +:+ r)) sub = true.
Proof.
  induction s as [|a s IH].
  - by rewrite str_app_nil, contains_unfold, str_prefix_app.
  - rewrite str_app_cons, contains_unfold, IH. apply orb_true_r.
Qed.

(** A string that [rstrip] leaves alone keeps that property behind any
    prefix, and survives as a prefix whatever is appended. *)
Lemma rstrip_fixed_app c s p :
  p ≠ "" → PyStr.rstrip c p = p → PyStr.rstrip c (s +:+ p) = s +:+ p.
Proof.
  intros Hne Hp. induction s as [|a s IH]; [done |].
  rewrite str_app_cons. simpl.
  rewrite IH. destruct (s +:+ p) eqn:E; [| done].
  destruct s; [by rewrite str_app_nil in E | by rewrite str_app_cons in E].
Qed.

Lemma rstrip_keeps_prefix c p r :
  p ≠ "" → PyStr.rstrip c p = p → ∃ r', PyStr.rstrip c (p +:+ r) = p +:+ r'.
Proof.
  induction p as [|a p IH]; intros Hne Hp; [done |].
  rewrite str_app_cons. simpl in *. destruct p as [|b p].
  - rewrite str_app_nil. simpl in Hp.
    destruct (Ascii.eqb a c) eqn:Ea; [done |].
    destruct (PyStr.rstrip c r) eqn:Er.
    + by exists "".
    + by eexists.
  - destruct (PyStr.rstrip c (String b p)) eqn:Eb.
    + destruct (Ascii.eqb a c); discriminate.
    + injection Hp as Hp. destruct IH as [r' Hr']; [done | congruence |].
      rewrite Hr'. exists r'. by rewrite !str_app_cons.
Qed.

End StringFacts.

Lemma strip_in_scope module ref_url :
  module_ok module = true →
  PyStr.startswith ref_url (scope_of module) = true →
  in_scope module (PyStr.strip "/" ref_url) = true.
Proof.
  unfold module_ok, in_scope, PyStr.startswith, scope_of.
  intros [Hne Hfix]%andb_true_iff Hpre.
  apply negb_true_iff, String.eqb_neq in Hne. apply String.eqb_eq in Hfix.
  apply str_prefix_split in Hpre as [r ->].
  assert (PyStr.lstrip "/" (("/documentation/" +:+ module) +:+ r)
          = seed_of module +:+ r) as Hl by reflexivity.
  unfold PyStr.strip. rewrite Hl.
  destruct (rstrip_keeps_prefix "/" (seed_of module) r) as [r' ->].
  - unfold seed_of. simpl. discriminate.
  - unfold seed_of. by apply rstrip_fixed_app.
  - apply str_prefix_app.
Qed.

(** ** References of a document *)

Lemma empty_url_out_of_scope module :
  PyStr.startswith "" (scope_of module) = false.
Proof. reflexivity. Qed.

Lemma enqueue_ref_target module queue ref :
  enqueue_ref module queue ref
  = queue ++ match ref_target module ref with Some p => [p] | None => [] end.
Proof.
  unfold enqueue_ref, ref_target, py_or.
  destruct ref as [| | | | | | |items]; try by rewrite app_nil_r.
  destruct (dict_get items "url" VNone) as [| b | z | q | s | l | l | l].
  5: { destruct s as [|a s].
       - cbn [truthy String.eqb negb].
         by rewrite empty_url_out_of_scope, app_nil_r.
       - cbn [truthy String.eqb negb].
         destruct (PyStr.startswith _ _); [done | by rewrite app_nil_r]. }
  all: destruct (truthy _);
    by rewrite ?empty_url_out_of_scope, app_nil_r.
Qed.

Lemma enqueue_refs_targets module refs queue :
  enqueue_refs module refs queue
  = queue ++ omap (ref_target module) (dict_values refs).
Proof.
  unfold enqueue_refs. revert queue.
  induction (dict_values refs) as [|ref l IH]; intros queue; simpl.
  - by rewrite app_nil_r.
  - rewrite IH, enqueue_ref_target, <- app_assoc.
    by destruct (ref_target module ref).
Qed.

Lemma ref_target_in_scope module ref p :
  module_ok module = true →
  ref_target module ref = Some p → in_scope module p = true.
Proof.
  intros Hm. unfold ref_target. intros H.
  repeat case_match; simplify_eq. by apply strip_in_scope.
Qed.

Lemma enqueue_refs_in_scope module refs queue :
  module_ok module = true →
  Forall (λ p, in_scope module p = true) queue →
  Forall (λ p, in_scope module p = true) (enqueue_refs module refs queue).
Proof.
  intros Hm Hq. rewrite enqueue_refs_targets. apply Forall_app. split; [done |].
  apply Forall_forall. intros p [ref [_ Hp]]%list_elem_of_omap.
  by eapply ref_target_in_scope.
Qed.

(** ** The loop *)

Section LoopRule.

Context (w : world) (module dest_root : string) (limit : option Z).
Variable P : state → Prop.
Variable Q : exn → state → Prop.

Hypothesis body_keeps : ∀ st path rest,
  queue st = path :: rest → P st →
  match body w module dest_root limit st path rest with
  | Continue st' | Break st' => P st'
  | Raise e st' => Q e st'
  end.

(** An invariant of the body holds wherever the loop stops, and the
    call returns [None] when it returns. *)
Lemma loop_rule fuel st :
  P st →
  match loop w module dest_root limit fuel st with
  | Returned r st' => r = VNone ∧ P st'
  | Timeout st' => P st'
  | Raised e st' => Q e st'
  end.
Proof.
  revert st. induction fuel as [|fuel IH]; intros st HP; simpl.
  - by destruct (queue st).
  - destruct (queue st) as [|path rest] eqn:Eq; [done |].
    pose proof (body_keeps st path rest Eq HP) as Hb.
    destruct (body w module dest_root limit st path rest);
      [by apply IH | done | done].
Qed.

End LoopRule.

Lemma fetch_module_rule (w : world) (module dest_root : string)
  (limit : option Z) (P : state → Prop) (fuel : nat) :
  (∀ st path rest, queue st = path :: rest → P st →
     P (state_of_step (body w module dest_root limit st path rest))) →
  P (initial module) → P untouched →
  P (state_of (fetch_module w module dest_root limit fuel)).
Proof.
  intros Hbody Hinit Hun. unfold fetch_module.
  destruct (makedirs w dest_root); [| done].
  assert (∀ st path rest, queue st = path :: rest → P st →
            match body w module dest_root limit st path rest with
            | Continue st' | Break st' => P st'
            | Raise e st' => (λ _, P) e st'
            end) as Hk.
  { intros st path rest Eq HP. specialize (Hbody st path rest Eq HP).
    by destruct (body w module dest_root limit st path rest). }
  pose proof (loop_rule w module dest_root limit P (λ _, P) Hk fuel _ Hinit) as H.
  destruct (loop w module dest_root limit fuel (initial module)); simpl;
    [by destruct H | done | done].
Qed.

(** What one round of the loop does to the queue, the visited set and the
    list of requested paths, whatever the world answers. *)
Lemma body_shape w module dest_root limit st path rest :
  let st' := state_of_step (body w module dest_root limit st path rest) in
  (queue st' = rest ∨ ∃ refs, queue st' = enqueue_refs module refs rest)
  ∧ ((path ∈ visited st ∧ visited st' = visited st
        ∧ requested st' = requested st)
     ∨ ((path ∉ visited st) ∧ visited st' = visited st ∪ {[path]}
        ∧ (requested st' = requested st
           ∨ (over_limit limit (visited st ∪ {[path]}) = false
              ∧ requested st' = requested st ++ [path])))).
Proof. body_cases; naive_solver. Qed.

Lemma length_le_size (l : list string) (X : gset string) :
  NoDup l → (∀ p, p ∈ l → p ∈ X) → (List.length l <= size X)%nat.
Proof.
  intros Hnd Hsub. rewrite <- (size_list_to_set (C := gset string) l Hnd).
  apply subseteq_size. intros p Hp. apply Hsub. set_solver.
Qed.

Lemma body_requested_ok w module dest_root limit st path rest :
  requested_ok limit st →
  requested_ok limit (state_of_step (body w module dest_root limit st path rest)).
Proof.
  intros (Hnd & Hsub & Hlim).
  destruct (body_shape w module dest_root limit st path rest)
    as [_ [(Hin & Hv & Hr) | (Hnin & Hv & [Hr | [Hov Hr]])]];
    unfold requested_ok; rewrite Hv, Hr.
  - done.
  - split_and!; [done | set_solver | done].
  - assert (NoDup (requested st ++ [path])) as Hnd'.
    { apply NoDup_app. split_and!; [done | | apply NoDup_singleton].
      intros p Hp ->%list_elem_of_singleton. by apply Hnin, Hsub. }
    assert (∀ p, p ∈ requested st ++ [path] → p ∈ visited st ∪ {[path]})
      as Hsub' by set_solver.
    split_and!; [done | done |].
    intros l ->. right. simpl in Hov.
    pose proof (length_le_size _ _ Hnd' Hsub'). lia.
Qed.

Lemma fetch_module_requested_ok w module dest_root limit fuel :
  requested_ok limit (state_of (fetch_module w module dest_root limit fuel)).
Proof.
  apply fetch_module_rule.
  - intros st path rest _. apply body_requested_ok.
  - unfold requested_ok; simpl. split_and!; [constructor | set_solver | auto].
  - unfold requested_ok; simpl. split_and!; [constructor | set_solver | auto].
Qed.

Lemma body_scoped w module dest_root limit st path rest :
  module_ok module = true →
  queue st = path :: rest →
  scoped module st →
  scoped module (state_of_step (body w module dest_root limit st path rest)).
Proof.
  intros Hm Eq [Hq Hr]. rewrite Eq in Hq. apply Forall_cons in Hq as [Hp Hq].
  destruct (body_shape w module dest_root limit st path rest) as [Hq' Hr'].
  split.
  - destruct Hq' as [-> | [refs ->]]; [done |]. by apply enqueue_refs_in_scope.
  - destruct Hr' as [(_ & _ & ->) | (_ & _ & [-> | [_ ->]])]; [done | done |].
    apply Forall_app. split; [done |]. by apply Forall_singleton.
Qed.

Lemma seed_in_scope module : in_scope module (seed_of module) = true.
Proof.
  unfold in_scope, PyStr.startswith.
  rewrite <- (str_prefix_app (seed_of module) "") at 1.
  f_equal. induction (seed_of module) as [|a s IH]; [done |].
  by rewrite str_app_cons, <- IH.
Qed.

Lemma fetch_module_scoped w module dest_root limit fuel :
  module_ok module = true →
  scoped module (state_of (fetch_module w module dest_root limit fuel)).
Proof.
  intros Hm. apply fetch_module_rule.
  - intros st path rest. by apply body_scoped.
  - split; simpl; [| constructor].
    apply Forall_singleton, seed_in_scope.
  - split; constructor.
Qed.

(** ** Rounds of the loop, case by case *)

Section Rounds.

Context (w : world) (module dest_root : string) (limit : option Z).
Context (st : state) (path : string) (rest : list string).

Lemma body_visited :
  path ∈ visited st →
  body w module dest_root limit st path rest
  = Continue {| queue := rest; visited := visited st; stdout := stdout st;
                files := files st; requested := requested st |}.
Proof. intros H. unfold body. by rewrite decide_True. Qed.

Lemma body_over_limit :
  path ∉ visited st →
  over_limit limit (visited st ∪ {[path]}) = true →
  body w module dest_root limit st path rest
  = Break {| queue := rest; visited := visited st ∪ {[path]};
             stdout := stdout st ++ [ReachedLimit (default 0%Z limit) module];
             files := files st; requested := requested st |}.
Proof. intros H Hov. unfold body. by rewrite decide_False, Hov. Qed.

Lemma body_http_error code :
  path ∉ visited st →
  over_limit limit (visited st ∪ {[path]}) = false →
  urlopen w (url_of path) = HTTPError code →
  body w module dest_root limit st path rest
  = Continue {| queue := rest; visited := visited st ∪ {[path]};
                stdout := stdout st ++ [HTTPErrorLine code (url_of path)];
                files := files st; requested := requested st ++ [path] |}.
Proof. intros H Hov Hu. unfold body. by rewrite decide_False, Hov, Hu. Qed.

Lemma body_other_error exc :
  path ∉ visited st →
  over_limit limit (visited st ∪ {[path]}) = false →
  urlopen w (url_of path) = OtherError exc →
  body w module dest_root limit st path rest
  = Continue {| queue := rest; visited := visited st ∪ {[path]};
                stdout := stdout st ++ [ErrorLine exc];
                files := files st; requested := requested st ++ [path] |}.
Proof. intros H Hov Hu. unfold body. by rewrite decide_False, Hov, Hu. Qed.

Lemma body_write_failed data :
  path ∉ visited st →
  over_limit limit (visited st ∪ {[path]}) = false →
  urlopen w (url_of path) = Loaded data →
  can_write w dest_root (file_name_of path) = false →
  body w module dest_root limit st path rest
  = Raise OSError {| queue := rest; visited := visited st ∪ {[path]};
                     stdout := stdout st; files := files st;
                     requested := requested st ++ [path] |}.
Proof.
  intros H Hov Hu Hw. unfold body. by rewrite decide_False, Hov, Hu, Hw.
Qed.

Lemma body_saved items refs :
  path ∉ visited st →
  over_limit limit (visited st ∪ {[path]}) = false →
  urlopen w (url_of path) = Loaded (VDict items) →
  can_write w dest_root (file_name_of path) = true →
  dict_get items "references" (VDict []) = VDict refs →
  body w module dest_root limit st path rest
  = Continue {| queue := rest ++ omap (ref_target module) (dict_values refs);
                visited := visited st ∪ {[path]};
                stdout := stdout st ++ [Saved path];
                files := <[file_name_of path := VDict items]> (files st);
                requested := requested st ++ [path] |}.
Proof.
  intros H Hov Hu Hw Hr. unfold body.
  by rewrite decide_False, Hov, Hu, Hw, Hr, enqueue_refs_targets.
Qed.

End Rounds.

Lemma loop_fuel_mono w module dest_root limit fuel fuel' st :
  (fuel <= fuel')%nat →
  terminated (loop w module dest_root limit fuel st) = true →
  loop w module dest_root limit fuel' st = loop w module dest_root limit fuel st.
Proof.
  revert fuel' st. induction fuel as [|fuel IH]; intros fuel' st Hle Ht.
  - simpl in *. destruct (queue st) eqn:Eq; [| done].
    destruct fuel'; simpl; by rewrite Eq.
  - destruct fuel' as [|fuel']; [lia |]. simpl in *.
    destruct (queue st) as [|path rest]; [done |].
    destruct (body w module dest_root limit st path rest); [| done | done].
    apply IH; [lia | done].
Qed.

(** ** Termination on a finite reference graph *)

Lemma pending_mono w module (X Y : gset string) U :
  X ⊆ Y → (pending w module Y U <= pending w module X U)%nat.
Proof.
  intros Hsub. induction U as [|p U IH]; simpl; [done |].
  repeat case_decide; try lia. set_solver.
Qed.

Lemma pending_visit w module (X : gset string) U p :
  p ∈ U → p ∉ X →
  (pending w module (X ∪ {[p]}) U + List.length (links w module p)
   <= pending w module X U)%nat.
Proof.
  intros Hin Hnin. induction U as [|q U IH]; [by apply elem_of_nil in Hin |].
  simpl. apply elem_of_cons in Hin as [<- | Hin].
  - rewrite decide_True, decide_False by set_solver.
    assert (X ⊆ X ∪ {[p]}) as Hsub by set_solver.
    pose proof (pending_mono w module X (X ∪ {[p]}) U Hsub). lia.
  - specialize (IH Hin). repeat case_decide; try lia. set_solver.
Qed.

Lemma body_budget w module dest_root limit U st path rest :
  closed w module U →
  queue st = path :: rest →
  Forall (λ p, p ∈ U) (queue st) →
  match body w module dest_root limit st path rest with
  | Continue st' =>
      Forall (λ p, p ∈ U) (queue st')
      ∧ (budget w module U st' < budget w module U st)%nat
  | _ => True
  end.
Proof.
  intros [_ Hcl] Eq HU. unfold budget. rewrite Eq in *.
  apply Forall_cons in HU as [Hp HU].
  pose proof (pending_visit w module (visited st) U path Hp) as Hv.
  pose proof (Hcl path) as Hcl'. unfold links in Hv, Hcl'.
  destruct (decide (path ∈ visited st)) as [Hin | Hnin].
  { rewrite body_visited by done. simpl. split; [done | lia]. }
  specialize (Hv Hnin).
  unfold body. rewrite decide_False by done.
  destruct (over_limit _ _); [done |].
  destruct (urlopen w (url_of path)) as [data | code | exc]; simpl;
    [| split; [done | lia] ..].
  destruct (can_write _ _ _); [| done].
  destruct data as [| | | | | | |items]; try done.
  destruct (dict_get items "references" (VDict [])) as [| | | | | | |refs];
    try done.
  simpl. rewrite enqueue_refs_targets. split.
  - apply Forall_app. split; [done |]. apply Forall_forall. auto.
  - rewrite length_app. lia.
Qed.

Lemma loop_terminates w module dest_root limit U fuel st :
  closed w module U →
  Forall (λ p, p ∈ U) (queue st) →
  (budget w module U st <= fuel)%nat →
  terminated (loop w module dest_root limit fuel st) = true.
Proof.
  intros Hcl. revert st. induction fuel as [|fuel IH]; intros st HU Hb; simpl.
  - unfold budget in Hb. destruct (queue st); [done | simpl in Hb; lia].
  - destruct (queue st) as [|path rest] eqn:Eq; [done |].
    pose proof (body_budget w module dest_root limit U st path rest Hcl Eq) as H.
    rewrite Eq in H. specialize (H HU).
    destruct (body w module dest_root limit st path rest); [| done | done].
    destruct H as [HU' Hlt]. apply IH; [done | lia].
Qed.

Lemma fetch_module_terminates w module dest_root limit U :
  closed w module U →
  terminated (fetch_module w module dest_root limit
                (S (pending w module ∅ U))) = true.
Proof.
  intros Hcl. unfold fetch_module. destruct (makedirs w dest_root); [| done].
  apply (loop_terminates _ _ _ _ U); [done | |].
  - apply Forall_singleton, Hcl.
  - unfold budget. simpl. lia.
Qed.

(** ** Trace lines and stored files *)

Lemma body_tallied w module dest_root limit st path rest :
  tallied w st →
  match body w module dest_root limit st path rest with
  | Continue st' | Break st' => tallied w st'
  | Raise _ _ => True
  end.
Proof.
  intros [Hs Hf]. unfold tallied, body.
  destruct (decide (path ∈ visited st)); [done |].
  destruct (over_limit _ _); simpl.
  { rewrite !List.filter_app, !length_app. simpl. split; lia. }
  destruct (urlopen w (url_of path)) as [data | code | exc] eqn:Eu.
  2,3: assert (loaded w path = false) as Hl by (unfold loaded; by rewrite Eu);
       simpl; rewrite !List.filter_app, !length_app; simpl;
       rewrite Hl; simpl; split; lia.
  assert (loaded w path = true) as Hl by (unfold loaded; by rewrite Eu).
  destruct (can_write _ _ _); [| done].
  assert (tallied w
    {| queue := rest; visited := visited st ∪ {[path]};
       stdout := stdout st ++ [Saved path];
       files := <[file_name_of path := data]> (files st);
       requested := requested st ++ [path] |}) as [Hs' Hf'].
  { unfold tallied. simpl. rewrite !List.filter_app, !length_app. simpl.
    rewrite Hl. simpl. split; lia. }
  simpl in Hs', Hf'.
  destruct data as [| | | | | | |items]; try done.
  destruct (dict_get items "references" (VDict [])); done.
Qed.

Lemma stored_request w dest_root st path queue' visited' stdout' :
  stored w dest_root st →
  (∀ data, urlopen w (url_of path) = Loaded data →
     can_write w dest_root (file_name_of path) = false) →
  stored w dest_root
    {| queue := queue'; visited := visited'; stdout := stdout';
       files := files st; requested := requested st ++ [path] |}.
Proof.
  intros [Hf Hr] Hfail. split; simpl.
  - intros name data Hn. destruct (Hf name data Hn) as (p & Hp & H).
    exists p. split; [set_solver | done].
  - intros p data [Hp | ->%list_elem_of_singleton]%elem_of_app Hl Hw.
    + by eapply Hr.
    + rewrite (Hfail data Hl) in Hw. discriminate.
Qed.

Lemma stored_write w dest_root st path data queue' visited' stdout' :
  stored w dest_root st →
  urlopen w (url_of path) = Loaded data →
  can_write w dest_root (file_name_of path) = true →
  stored w dest_root
    {| queue := queue'; visited := visited'; stdout := stdout';
       files := <[file_name_of path := data]> (files st);
       requested := requested st ++ [path] |}.
Proof.
  intros [Hf Hr] Hl Hw. split; simpl.
  - intros name d Hn.
    destruct (decide (file_name_of path = name)) as [<- | Hne].
    + rewrite lookup_insert_eq in Hn. injection Hn as <-.
      exists path. split; [set_solver | done].
    + rewrite lookup_insert_ne in Hn by done.
      destruct (Hf name d Hn) as (p & Hp & H).
      exists p. split; [set_solver | done].
  - intros p d [Hp | ->%list_elem_of_singleton]%elem_of_app Hl' Hw'.
    + apply lookup_insert_is_Some'. right. by eapply Hr.
    + apply lookup_insert_is_Some'. by left.
Qed.

Lemma body_stored w module dest_root limit st path rest :
  stored w dest_root st →
  stored w dest_root (state_of_step (body w module dest_root limit st path rest)).
Proof.
  intros Hst. unfold body.
  destruct (decide (path ∈ visited st)); [by destruct Hst |].
  destruct (over_limit _ _); [by destruct Hst |].
  destruct (urlopen w (url_of path)) as [data | code | exc] eqn:Eu.
  2,3: cbn [state_of_step]; apply stored_request; [done | intros; congruence].
  destruct (can_write w dest_root (file_name_of path)) eqn:Ew.
  - destruct data as [| | | | | | |items];
      try (cbn [state_of_step]; by apply stored_write).
    destruct (dict_get items "references" (VDict []));
      cbn [state_of_step]; by apply stored_write.
  - cbn [state_of_step]. apply stored_request; [done | intros; congruence].
Qed.

Lemma fetch_module_stored w module dest_root limit fuel :
  stored w dest_root (state_of (fetch_module w module dest_root limit fuel)).
Proof.
  apply fetch_module_rule.
  - intros st path rest _. apply body_stored.
  - split; simpl; [by intros ?? ?%lookup_empty_Some | by intros ?? ?%elem_of_nil].
  - split; simpl; [by intros ?? ?%lookup_empty_Some | by intros ?? ?%elem_of_nil].
Qed.

Lemma body_written w module dest_root limit st path rest :
  written w dest_root st →
  match body w module dest_root limit st path rest with
  | Continue st' | Break st' | Raise AttributeError st' => written w dest_root st'
  | Raise OSError _ => True
  end.
Proof.
  intros Hw. unfold body.
  destruct (decide (path ∈ visited st)); [done |].
  destruct (over_limit _ _); [done |].
  assert (∀ b, (∀ data, urlopen w (url_of path) = Loaded data →
                  can_write w dest_root (file_name_of path) = true) →
    written w dest_root
      {| queue := b; visited := visited st ∪ {[path]}; stdout := [];
         files := ∅; requested := requested st ++ [path] |}) as Hadd.
  { intros b Hp p data [Hin | ->%list_elem_of_singleton]%elem_of_app Hl;
      [by eapply Hw | by eapply Hp]. }
  destruct (urlopen w (url_of path)) as [data | code | exc] eqn:Eu.
  2,3: by apply (Hadd rest).
  destruct (can_write w dest_root (file_name_of path)) eqn:Ew; [| done].
  destruct data as [| | | | | | |items]; try by apply (Hadd rest).
  destruct (dict_get items "references" (VDict [])); by apply (Hadd rest).
Qed.

(** ** The essentials sync *)

Lemma str_length_app (s r : string) :
  String.length (s +:+ r) = (String.length s + String.length r)%nat.
Proof.
  induction s as [|a s IH]; [done |]. rewrite str_app_cons. simpl. by rewrite IH.
Qed.

Lemma substring_app (s r : string) :
  String.substring 0 (String.length s) (s +:+ r) = s.
Proof.
  induction s as [|a s IH].
  - rewrite str_app_nil. by destruct r.
  - rewrite str_app_cons. simpl. by rewrite IH.
Qed.

Lemma drop_last_json (base : string) :
  PyStr.drop_last 5 (base +:+ ".json") = base.
Proof.
  unfold PyStr.drop_last. rewrite str_length_app. simpl.
  replace (String.length base + 5 - 5)%nat with (String.length base) by lia.
  apply substring_app.
Qed.

Section CopyFile.

Import Essentials.

Implicit Types (entries : directory) (name : string) (l : list string).

Lemma exists_in_listed entries name :
  name ∈ listdir entries → exists_in (Some entries) name = true.
Proof.
  intros Hin. unfold exists_in. apply orb_true_iff. right.
  apply List.existsb_exists. exists name.
  split; [by apply list_elem_of_In | apply String.eqb_refl].
Qed.

Lemma exists_in_absent entries name :
  exists_in (Some entries) name = false →
  names_directory name = false ∧ name ∉ listdir entries.
Proof.
  unfold exists_in. intros [Hd Hex]%orb_false_iff. split; [done |].
  intros Hin. apply exists_in_listed in Hin. unfold exists_in in Hin.
  rewrite Hd, Hex in Hin. done.
Qed.

Lemma read_listed entries name content :
  read entries name = Some content → name ∈ listdir entries.
Proof.
  induction entries as [|[n e] entries IH]; simpl; [done |].
  destruct (String.eqb n name) eqn:E.
  - apply String.eqb_eq in E as ->. intros _. by left.
  - intros H. right. by apply IH.
Qed.

Lemma elem_of_insert_by_len x y l :
  x ∈ insert_by_len y l ↔ x = y ∨ x ∈ l.
Proof.
  induction l as [|z l IH]; simpl.
  - rewrite list_elem_of_singleton, elem_of_nil. naive_solver.
  - destruct (String.length y <=? String.length z)%nat.
    + by rewrite elem_of_cons.
    + rewrite !elem_of_cons, IH. naive_solver.
Qed.

Lemma elem_of_sort_by_len x l : x ∈ sort_by_len l ↔ x ∈ l.
Proof.
  induction l as [|y l IH]; simpl; [done |].
  by rewrite elem_of_insert_by_len, elem_of_cons, IH.
Qed.

Lemma insert_by_len_shortest_first y l :
  shortest_first l → shortest_first (insert_by_len y l).
Proof.
  destruct l as [|z l]; simpl.
  - intros _ x ->%list_elem_of_singleton. done.
  - intros Hz. destruct (String.length y <=? String.length z)%nat eqn:E.
    + apply Nat.leb_le in E. intros x [-> | Hx]%elem_of_cons; [done |].
      specialize (Hz x Hx). simpl. lia.
    + apply Nat.leb_gt in E.
      intros x [-> | [-> | Hx]%elem_of_insert_by_len]%elem_of_cons;
        [done | simpl; lia |].
      apply Hz. by right.
Qed.

Lemma sort_by_len_shortest_first l : shortest_first (sort_by_len l).
Proof.
  induction l as [|y l IH]; simpl; [done |].
  by apply insert_by_len_shortest_first.
Qed.

Lemma sort_by_len_head l chosen others :
  sort_by_len l = chosen :: others →
  chosen ∈ l
  ∧ ∀ name, name ∈ l → (String.length chosen <= String.length name)%nat.
Proof.
  intros E. pose proof (sort_by_len_shortest_first l) as H.
  rewrite E in H. simpl in H. split.
  - apply elem_of_sort_by_len. rewrite E. by left.
  - intros name Hn. apply H. rewrite <- E. by apply elem_of_sort_by_len.
Qed.

Lemma sort_by_len_nil l : sort_by_len l = [] → l = [].
Proof.
  destruct l as [|y l]; [done |]. intros E.
  assert (y ∈ sort_by_len (y :: l)) as H by (apply elem_of_sort_by_len; by left).
  rewrite E in H. by apply elem_of_nil in H.
Qed.

End CopyFile.

(** * The claims *)

(** C1, as stated, fails: on the Widgets graph the call returns [None],
    not a pair of counts. *)
Lemma crawl_returns_no_counts :
  ¬ ∃ fetched failed st,
      fetch_module widgets "Widgets" "out" None 10
      = Returned (VTuple [VInt fetched; VInt failed]) st.
Proof. intros (fetched & failed & st & H). vm_compute in H. discriminate. Qed.

(** C1, amended: whenever the crawl returns, it returns [None]; the
    successes and failures are only printed, one [Saved] line per fetched
    document and one error line per failed fetch. *)
Theorem crawl_returns_none_and_reports w module dest_root limit fuel r st :
  fetch_module w module dest_root limit fuel = Returned r st →
  r = VNone
  ∧ List.length (List.filter is_saved (stdout st))
    = List.length (List.filter (loaded w) (requested st))
  ∧ List.length (List.filter is_failure (stdout st))
    = List.length (List.filter (λ p, negb (loaded w p)) (requested st)).
Proof.
  unfold fetch_module. destruct (makedirs w dest_root); [| done].
  intros E.
  pose proof (loop_rule w module dest_root limit (tallied w) (λ _ _, True)
                (λ st path rest _, body_tallied w module dest_root limit st path rest)
                fuel (initial module)) as H.
  rewrite E in H. apply H. by split.
Qed.

Lemma crawl_returns_none_and_reports_witness :
  ∃ st, fetch_module widgets "Widgets" "out" None 10 = Returned VNone st
    ∧ List.length (List.filter is_saved (stdout st)) = 2%nat
    ∧ List.length (List.filter is_failure (stdout st)) = 0%nat.
Proof.
  eexists. split; [vm_compute; reflexivity |].
  destruct (crawl_returns_none_and_reports widgets "Widgets" "out" None 10
              VNone _ ltac:(vm_compute; reflexivity)) as (_ & Hs & Hf).
  split; [rewrite Hs | rewrite Hf]; vm_compute; reflexivity.
Defined.

(** C3: the scope test lets a sibling namespace through. On a service
    where the page of Widgets links to a page of WidgetsExtra, the crawl
    of Widgets requests that page and stores it, although the path is
    neither [documentation/Widgets] nor below it: the url only has to
    begin with the string [/documentation/Widgets], and no separator is
    asked for after the module name. *)
Lemma sibling_namespace_fetched :
  in_namespace "Widgets" "documentation/WidgetsExtra/Thing" = false
  ∧ PyStr.startswith "/documentation/WidgetsExtra/Thing" (scope_of "Widgets")
    = true
  ∧ ∃ st,
      fetch_module sibling_world "Widgets" "out" None 10 = Returned VNone st
      ∧ requested st
        = ["documentation/Widgets"; "documentation/WidgetsExtra/Thing"]
      ∧ List.map render (stdout st)
        = ["Saved documentation/Widgets";
           "Saved documentation/WidgetsExtra/Thing"]
      ∧ files st !! "documentation_WidgetsExtra_Thing.json"
        = Some (doc_with_refs []).
Proof.
  split; [reflexivity |]. split; [reflexivity |].
  eexists. split; [vm_compute; reflexivity |].
  split_and!; reflexivity.
Qed.

(** X22: what the scope test does give. For a module name that is not
    empty and does not end in a path separator, every path handed to the
    fetch begins with the string [documentation/<module>]; a path that
    does not is never fetched, and a reference whose url does not start
    with [/documentation/<module>] adds nothing to the queue. *)
Theorem scope_containment w module dest_root limit fuel :
  module_ok module = true →
  let st := state_of (fetch_module w module dest_root limit fuel) in
  Forall (λ p, in_scope module p = true) (requested st)
  ∧ (∀ p, in_scope module p = false → p ∉ requested st)
  ∧ (∀ queue items ref_url,
       dict_get items "url" VNone = VStr ref_url →
       PyStr.startswith ref_url (scope_of module) = false →
       enqueue_ref module queue (VDict items) = queue).
Proof.
  intros Hm st.
  destruct (fetch_module_scoped w module dest_root limit fuel Hm) as [_ Hr].
  split_and!.
  - done.
  - intros p Hp Hin. rewrite Forall_forall in Hr. specialize (Hr p Hin).
    subst st. congruence.
  - intros queue items ref_url Hu Hs. rewrite enqueue_ref_target.
    unfold ref_target. by rewrite Hu, Hs, app_nil_r.
Qed.

Lemma scope_containment_witness :
  module_ok "Widgets" = true
  ∧ requested (state_of (fetch_module widgets "Widgets" "out" None 10))
    = ["documentation/Widgets"; "documentation/Widgets/Gadget"]
  ∧ "documentation/Other/Thing"
    ∉ requested (state_of (fetch_module widgets "Widgets" "out" None 10)).
Proof.
  split; [reflexivity |]. split; [vm_compute; reflexivity |].
  apply (scope_containment widgets "Widgets" "out" None 10); reflexivity.
Defined.

(** ** Stepping the loop *)

Lemma loop_continue w module dest_root limit fuel st path rest st' :
  queue st = path :: rest →
  body w module dest_root limit st path rest = Continue st' →
  loop w module dest_root limit (S fuel) st
  = loop w module dest_root limit fuel st'.
Proof. intros Eq Eb. simpl. by rewrite Eq, Eb. Qed.

Lemma loop_break w module dest_root limit fuel st path rest st' :
  queue st = path :: rest →
  body w module dest_root limit st path rest = Break st' →
  loop w module dest_root limit (S fuel) st = Returned VNone st'.
Proof. intros Eq Eb. simpl. by rewrite Eq, Eb. Qed.

Lemma loop_raise w module dest_root limit fuel st path rest e st' :
  queue st = path :: rest →
  body w module dest_root limit st path rest = Raise e st' →
  loop w module dest_root limit (S fuel) st = Raised e st'.
Proof. intros Eq Eb. simpl. by rewrite Eq, Eb. Qed.

Lemma loop_done w module dest_root limit fuel st :
  queue st = [] → loop w module dest_root limit fuel st = Returned VNone st.
Proof. intros Eq. destruct fuel; simpl; by rewrite Eq. Qed.

Lemma targets_single module key ref_url :
  PyStr.startswith ref_url (scope_of module) = true →
  omap (ref_target module) (dict_values [(key, VDict [("url", VStr ref_url)])])
  = [PyStr.strip "/" ref_url].
Proof. intros H. simpl. by rewrite H. Qed.

Lemma targets_pair module key1 url1 key2 url2 :
  PyStr.startswith url1 (scope_of module) = true →
  PyStr.startswith url2 (scope_of module) = true →
  omap (ref_target module)
    (dict_values [(key1, VDict [("url", VStr url1)]);
                  (key2, VDict [("url", VStr url2)])])
  = [PyStr.strip "/" url1; PyStr.strip "/" url2].
Proof. intros H1 H2. simpl. by rewrite H1, H2. Qed.

(** C5: distinct requests at any point of any run; termination when the
    paths reachable from the seed are finitely many; and on a two-node
    cycle the run returns after fetching each node once. *)
Theorem crawl_terminates_fetching_once w module dest_root limit :
  (∀ fuel,
     NoDup (requested (state_of (fetch_module w module dest_root limit fuel))))
  ∧ (∀ U, closed w module U →
       ∃ fuel,
         terminated (fetch_module w module dest_root limit fuel) = true
         ∧ ∀ fuel', (fuel <= fuel')%nat →
             fetch_module w module dest_root limit fuel'
             = fetch_module w module dest_root limit fuel)
  ∧ (∀ kb ub ka ua b,
       urlopen w (url_of (seed_of module)) = Loaded (doc_with_refs [(kb, ub)]) →
       urlopen w (url_of b) = Loaded (doc_with_refs [(ka, ua)]) →
       PyStr.startswith ub (scope_of module) = true →
       PyStr.strip "/" ub = b →
       PyStr.startswith ua (scope_of module) = true →
       PyStr.strip "/" ua = seed_of module →
       b ≠ seed_of module →
       makedirs w dest_root = true →
       can_write w dest_root (file_name_of (seed_of module)) = true →
       can_write w dest_root (file_name_of b) = true →
       ∀ fuel, (3 <= fuel)%nat →
       ∃ st, fetch_module w module dest_root None fuel = Returned VNone st
             ∧ requested st = [seed_of module; b]).
Proof.
  split_and!.
  - intros fuel. apply fetch_module_requested_ok.
  - intros U HU. exists (S (pending w module ∅ U)).
    pose proof (fetch_module_terminates w module dest_root limit U HU) as Ht.
    split; [done |]. intros fuel' Hle. unfold fetch_module in *.
    destruct (makedirs w dest_root); [| done]. by apply loop_fuel_mono.
  - intros kb ub ka ua b Ha Hb Hub Hsb Hua Hsa Hne Hmk Hwa Hwb fuel Hfuel.
    destruct fuel as [|[|[|fuel]]]; try lia.
    unfold fetch_module. rewrite Hmk.
    erewrite loop_continue; [| reflexivity |]; cycle 1.
    { eapply body_saved; [set_solver | done | exact Ha | exact Hwa | reflexivity]. }
    cbn [List.map fst snd]. rewrite targets_single, Hsb by done. cbn [app].
    erewrite loop_continue; [| reflexivity |]; cycle 1.
    { eapply body_saved; [set_solver | done | exact Hb | exact Hwb | reflexivity]. }
    cbn [List.map fst snd]. rewrite targets_single, Hsa by done. cbn [app].
    erewrite loop_continue; [| reflexivity |]; cycle 1.
    { apply body_visited. set_solver. }
    rewrite loop_done by done. by eexists.
Qed.

Lemma crawl_terminates_fetching_once_witness :
  closed cycle_world "Widgets"
    ["documentation/Widgets"; "documentation/Widgets/Gadget"]
  ∧ (∃ fuel,
       terminated (fetch_module cycle_world "Widgets" "out" None fuel) = true
       ∧ ∀ fuel', (fuel <= fuel')%nat →
           fetch_module cycle_world "Widgets" "out" None fuel'
           = fetch_module cycle_world "Widgets" "out" None fuel)
  ∧ ∃ st, fetch_module cycle_world "Widgets" "out" None 3 = Returned VNone st
          ∧ requested st
            = ["documentation/Widgets"; "documentation/Widgets/Gadget"].
Proof.
  assert (closed cycle_world "Widgets"
            ["documentation/Widgets"; "documentation/Widgets/Gadget"]) as HU.
  { split; [by left |].
    intros p p' [-> | [-> | []%elem_of_nil]%elem_of_cons]%elem_of_cons;
      vm_compute; intros [-> | []%elem_of_nil]%elem_of_cons; set_solver. }
  split; [exact HU |]. split.
  - exact (proj1 (proj2 (crawl_terminates_fetching_once
                           cycle_world "Widgets" "out" None)) _ HU).
  - apply (proj2 (proj2 (crawl_terminates_fetching_once
                           cycle_world "Widgets" "out" None))
             "b" "/documentation/Widgets/Gadget" "a" "/documentation/Widgets"
             "documentation/Widgets/Gadget");
      (reflexivity || done || lia).
Defined.

Lemma size_visited_one (p : string) : size ((∅ : gset string) ∪ {[p]}) = 1%nat.
Proof. by rewrite (left_id_L ∅ (∪)), size_singleton. Qed.

Lemma size_visited_two (p q : string) :
  q ≠ p → size ((∅ : gset string) ∪ {[p]} ∪ {[q]}) = 2%nat.
Proof.
  intros Hne. rewrite (left_id_L ∅ (∪)), size_union, !size_singleton; [done |].
  set_solver.
Qed.

(** C4: with a limit, the round in which the visited set outgrows the limit
    ends the call at once, whatever the queue still holds; the number of
    requests never exceeds the limit; and with limit 1 and a seed document
    holding two in-scope references, the seed is the only path requested. *)
Theorem limit_stops_crawl w module dest_root l :
  (∀ fuel st path rest,
     queue st = path :: rest →
     path ∉ visited st →
     (Z.of_nat (size (visited st ∪ {[path]})) > l)%Z →
     loop w module dest_root (Some l) (S fuel) st
     = Returned VNone
         {| queue := rest; visited := visited st ∪ {[path]};
            stdout := stdout st ++ [ReachedLimit l module];
            files := files st; requested := requested st |})
  ∧ (∀ fuel,
       let st := state_of (fetch_module w module dest_root (Some l) fuel) in
       requested st = [] ∨ (Z.of_nat (List.length (requested st)) <= l)%Z)
  ∧ (∀ k1 u1 k2 u2,
       l = 1%Z →
       makedirs w dest_root = true →
       urlopen w (url_of (seed_of module))
       = Loaded (doc_with_refs [(k1, u1); (k2, u2)]) →
       can_write w dest_root (file_name_of (seed_of module)) = true →
       PyStr.startswith u1 (scope_of module) = true →
       PyStr.startswith u2 (scope_of module) = true →
       ∀ fuel, (3 <= fuel)%nat →
       ∃ st, fetch_module w module dest_root (Some l) fuel = Returned VNone st
             ∧ requested st = [seed_of module]).
Proof.
  split_and!.
  - intros fuel st path rest Eq Hnin Hgt.
    eapply loop_break; [exact Eq |].
    apply body_over_limit; [done |]. simpl. by apply Z.gtb_gt.
  - intros fuel st.
    destruct (fetch_module_requested_ok w module dest_root (Some l) fuel)
      as (_ & _ & H). by apply H.
  - intros k1 u1 k2 u2 -> Hmk Hseed Hw H1 H2 fuel Hfuel.
    destruct fuel as [|[|[|fuel]]]; try lia.
    unfold fetch_module. rewrite Hmk.
    erewrite loop_continue; [| reflexivity |]; cycle 1.
    { eapply body_saved; [set_solver | | exact Hseed | exact Hw | reflexivity].
      unfold over_limit, initial. cbn [visited]. by rewrite size_visited_one. }
    cbn [List.map fst snd]. rewrite targets_pair by done. cbn [app].
    set (p1 := PyStr.strip "/" u1). set (p2 := PyStr.strip "/" u2).
    assert (∀ p rest out fl,
      p ≠ seed_of module →
      loop w module dest_root (Some 1%Z) (S (S fuel))
        {| queue := p :: rest; visited := visited (initial module) ∪ {[seed_of module]};
           stdout := out; files := fl;
           requested := requested (initial module) ++ [seed_of module] |}
      = Returned VNone
          {| queue := rest;
             visited := visited (initial module) ∪ {[seed_of module]} ∪ {[p]};
             stdout := out ++ [ReachedLimit 1 module]; files := fl;
             requested := requested (initial module) ++ [seed_of module] |})
      as Hstop.
    { intros p rest out fl Hne. eapply loop_break; [reflexivity |].
      apply body_over_limit; [set_solver |].
      unfold over_limit, initial. cbn [visited]. by rewrite size_visited_two. }
    destruct (decide (p1 = seed_of module)) as [E1 | N1].
    + erewrite loop_continue; [| reflexivity |]; cycle 1.
      { apply body_visited. set_solver. }
      destruct (decide (p2 = seed_of module)) as [E2 | N2].
      * erewrite loop_continue; [| reflexivity |]; cycle 1.
        { apply body_visited. set_solver. }
        rewrite loop_done by done. by eexists.
      * eexists. split.
        { eapply loop_break; [reflexivity |].
          apply body_over_limit; [set_solver |].
          unfold over_limit, initial. cbn [visited].
          by rewrite size_visited_two. }
        reflexivity.
    + rewrite Hstop by done. by eexists.
Qed.

Lemma limit_stops_crawl_witness :
  (∃ st, fetch_module fanout "Widgets" "out" (Some 1%Z) 3 = Returned VNone st
         ∧ requested st = ["documentation/Widgets"])
  ∧ loop fanout "Widgets" "out" (Some 0%Z) 1 (initial "Widgets")
    = Returned VNone
        {| queue := []; visited := ∅ ∪ {["documentation/Widgets"]};
           stdout := [ReachedLimit 0 "Widgets"]; files := ∅; requested := [] |}.
Proof.
  split.
  - apply (proj2 (proj2 (limit_stops_crawl fanout "Widgets" "out" 1%Z))
             "r1" "/documentation/Widgets/Gadget"
             "r2" "/documentation/Widgets/Gizmo");
      (reflexivity || lia).
  - apply (proj1 (limit_stops_crawl fanout "Widgets" "out" 0%Z)
             0%nat (initial "Widgets") "documentation/Widgets" []);
      [reflexivity | set_solver | by rewrite size_visited_one].
Defined.

(** C2, as stated, fails: when the file of Widgets/Gadget cannot be
    written the call ends with [OSError], and Widgets/Gizmo, still in the
    queue, is never requested. *)
Lemma storage_failure_not_isolated :
  ∃ st, fetch_module read_only_gadget "Widgets" "out" None 10 = Raised OSError st
    ∧ queue st = ["documentation/Widgets/Gizmo"]
    ∧ requested st = ["documentation/Widgets"; "documentation/Widgets/Gadget"].
Proof. eexists. split; [vm_compute; reflexivity |]. by split. Qed.

(** C2, amended: a failure to write a fetched document is not caught. The
    round raises [OSError] out of the loop: no [Saved] line is printed, the
    document's references are not processed and the rest of the queue is
    abandoned; and a run in which some requested document could not be
    written has ended with [OSError]. *)
Theorem storage_failure_aborts w module dest_root limit :
  (∀ fuel st path rest data,
     queue st = path :: rest →
     path ∉ visited st →
     over_limit limit (visited st ∪ {[path]}) = false →
     urlopen w (url_of path) = Loaded data →
     can_write w dest_root (file_name_of path) = false →
     loop w module dest_root limit (S fuel) st
     = Raised OSError
         {| queue := rest; visited := visited st ∪ {[path]};
            stdout := stdout st; files := files st;
            requested := requested st ++ [path] |})
  ∧ (∀ fuel p data,
       p ∈ requested (state_of (fetch_module w module dest_root limit fuel)) →
       urlopen w (url_of p) = Loaded data →
       can_write w dest_root (file_name_of p) = false →
       ∃ st, fetch_module w module dest_root limit fuel = Raised OSError st).
Proof.
  split.
  - intros fuel st path rest data Eq Hnin Hov Hl Hw.
    eapply loop_raise; [exact Eq |]. by eapply body_write_failed.
  - intros fuel p data Hp Hl Hw. unfold fetch_module in *.
    destruct (makedirs w dest_root); [| by eexists].
    pose proof (loop_rule w module dest_root limit (written w dest_root)
      (λ e st, match e with
               | AttributeError => written w dest_root st
               | OSError => True
               end)) as H.
    specialize (H (λ st path rest _, body_written w module dest_root limit st path rest)
                  fuel (initial module)).
    assert (written w dest_root (initial module)) as H0
      by (by intros ?? ?%elem_of_nil).
    specialize (H H0).
    destruct (loop w module dest_root limit fuel (initial module))
      as [r st | [] st | st]; simpl in Hp.
    + destruct H as [_ H]. rewrite (H p data Hp Hl) in Hw. discriminate.
    + by eexists.
    + rewrite (H p data Hp Hl) in Hw. discriminate.
    + rewrite (H p data Hp Hl) in Hw. discriminate.
Qed.

Lemma storage_failure_aborts_witness :
  loop read_only_gadget "Widgets" "out" None 1 seed_saved
  = Raised OSError
      {| queue := ["documentation/Widgets/Gizmo"];
         visited := {["documentation/Widgets"]} ∪ {["documentation/Widgets/Gadget"]};
         stdout := [Saved "documentation/Widgets"]; files := ∅;
         requested := ["documentation/Widgets"; "documentation/Widgets/Gadget"] |}
  ∧ ∃ st, fetch_module read_only_gadget "Widgets" "out" None 10
          = Raised OSError st.
Proof.
  split.
  - apply (proj1 (storage_failure_aborts read_only_gadget "Widgets" "out" None)
             0%nat seed_saved "documentation/Widgets/Gadget"
             ["documentation/Widgets/Gizmo"] (doc_with_refs []));
      [reflexivity | set_solver | reflexivity | reflexivity | reflexivity].
  - apply (proj2 (storage_failure_aborts read_only_gadget "Widgets" "out" None)
             10%nat "documentation/Widgets/Gadget" (doc_with_refs []));
      [vm_compute; set_solver | reflexivity | reflexivity].
Defined.

(** C7: a failure that is not an [HTTPError] is reported by the exception
    text alone. When every request times out, the crawl of Widgets prints
    the one line [Error timed out] for its seed, which names neither the
    path nor the URL, while the line of the [HTTPError] handler beside it
    ends in the URL. *)
Lemma transport_error_line_lacks_path :
  List.map render (stdout (state_of (fetch_module flaky "Widgets" "out" None 10)))
  = ["Error timed out"]
  ∧ requested (state_of (fetch_module flaky "Widgets" "out" None 10))
    = ["documentation/Widgets"]
  ∧ PyStr.contains "Error timed out" "documentation/Widgets" = false.
Proof. split_and!; vm_compute; reflexivity. Qed.

Lemma http_error_line_names_path code path :
  PyStr.contains (render (HTTPErrorLine code (url_of path))) path = true.
Proof.
  unfold render, url_of.
  rewrite <- !str_app_assoc. rewrite str_app_assoc. apply contains_app.
Qed.

(** X23: a failed fetch prints one line and the loop goes on with the
    rest of the queue, nothing enqueued; an [HTTPError] line is
    [HTTPError], the status code and the URL, which contains the path; the
    line of any other failure is [Error] and the exception text. No path
    is requested twice in a run. *)
Theorem fetch_failure_isolated w module dest_root limit :
  (∀ fuel st path rest,
     queue st = path :: rest →
     path ∉ visited st →
     over_limit limit (visited st ∪ {[path]}) = false →
     loaded w path = false →
     ∃ l, loop w module dest_root limit (S fuel) st
          = loop w module dest_root limit fuel
              {| queue := rest; visited := visited st ∪ {[path]};
                 stdout := stdout st ++ [l]; files := files st;
                 requested := requested st ++ [path] |}
        ∧ ((∃ code, urlopen w (url_of path) = HTTPError code
              ∧ render l = "HTTPError " +:+ PyStr.of_int code +:+ " " +:+ url_of path
              ∧ PyStr.contains (render l) path = true)
           ∨ (∃ exc, urlopen w (url_of path) = OtherError exc
                ∧ render l = "Error " +:+ exc)))
  ∧ (∀ fuel,
       NoDup (requested (state_of (fetch_module w module dest_root limit fuel)))).
Proof.
  split.
  - intros fuel st path rest Eq Hnin Hov Hl. unfold loaded in Hl.
    destruct (urlopen w (url_of path)) as [data | code | exc] eqn:Eu; [done | |].
    + exists (HTTPErrorLine code (url_of path)). split.
      * eapply loop_continue; [exact Eq |]. by apply body_http_error.
      * left. exists code. split_and!; [done | done |].
        apply http_error_line_names_path.
    + exists (ErrorLine exc). split.
      * eapply loop_continue; [exact Eq |]. by apply body_other_error.
      * right. by exists exc.
  - intros fuel. apply fetch_module_requested_ok.
Qed.

Lemma fetch_failure_isolated_witness :
  ∃ l, loop widgets "Widgets" "out" None 1 gone_next
       = loop widgets "Widgets" "out" None 0
           {| queue := ["documentation/Widgets/Gadget"];
              visited := {["documentation/Widgets"]} ∪ {["documentation/Widgets/Gone"]};
              stdout := [l]; files := ∅;
              requested := ["documentation/Widgets"; "documentation/Widgets/Gone"] |}
     ∧ render l
       = "HTTPError 404 https://developer.apple.com/tutorials/data/documentation/Widgets/Gone.json".
Proof.
  destruct (proj1 (fetch_failure_isolated widgets "Widgets" "out" None)
              0%nat gone_next
              "documentation/Widgets/Gone" ["documentation/Widgets/Gadget"]
              ltac:(reflexivity) ltac:(set_solver) ltac:(reflexivity)
              ltac:(reflexivity))
    as (l & Hloop & [(code & Hc & Hr & _) | (exc & He & _)]).
  - exists l. split; [exact Hloop |].
    rewrite Hr. injection Hc as <-. reflexivity.
  - discriminate He.
Defined.

(** C6, as stated, fails twice over. A reference back to the seed is
    appended to the queue although the seed is already in the visited set;
    and a url without the leading separator is not appended although it
    begins with [documentation/<module>]. *)
Lemma visited_path_enqueued :
  (∃ st', body selfref "Widgets" "out" None (initial "Widgets")
            "documentation/Widgets" []
          = Continue st'
        ∧ "documentation/Widgets" ∈ visited st'
        ∧ queue st' = ["documentation/Widgets"])
  ∧ PyStr.startswith "documentation/Widgets/Gadget" "documentation/Widgets" = true
  ∧ enqueue_ref "Widgets" []
      (VDict [("url", VStr "documentation/Widgets/Gadget")]) = [].
Proof.
  split; [| by split].
  eexists. split; [vm_compute; reflexivity |]. split; [set_solver | reflexivity].
Qed.

Lemma ref_target_spec module ref p :
  ref_target module ref = Some p ↔
  ∃ items ref_url,
    ref = VDict items
    ∧ dict_get items "url" VNone = VStr ref_url
    ∧ PyStr.startswith ref_url ("/documentation/" +:+ module) = true
    ∧ p = PyStr.strip "/" ref_url.
Proof.
  unfold ref_target, scope_of. split.
  - intros H. repeat case_match; simplify_eq. by eexists _, _.
  - intros (items & ref_url & -> & -> & -> & ->). done.
Qed.

(** C6, amended: a reference value is followed when it is a dict whose
    [url] is a string starting with [/documentation/<module>], leading
    separator included; its url, stripped of leading and trailing
    separators, is then appended to the tail of the queue whether or not
    that path was visited. The visited set is consulted only when a path
    is taken from the queue. *)
Theorem references_enqueued_unconditionally w module dest_root limit :
  (∀ refs queue,
     enqueue_refs module refs queue
     = queue ++ omap (ref_target module) (dict_values refs))
  ∧ (∀ ref p,
       ref_target module ref = Some p ↔
       ∃ items ref_url,
         ref = VDict items
         ∧ dict_get items "url" VNone = VStr ref_url
         ∧ PyStr.startswith ref_url ("/documentation/" +:+ module) = true
         ∧ p = PyStr.strip "/" ref_url)
  ∧ (∀ st path rest items refs,
       path ∉ visited st →
       over_limit limit (visited st ∪ {[path]}) = false →
       urlopen w (url_of path) = Loaded (VDict items) →
       can_write w dest_root (file_name_of path) = true →
       dict_get items "references" (VDict []) = VDict refs →
       ∃ st', body w module dest_root limit st path rest = Continue st'
              ∧ queue st' = rest ++ omap (ref_target module) (dict_values refs)
              ∧ visited st' = visited st ∪ {[path]}).
Proof.
  split_and!.
  - intros refs queue. apply enqueue_refs_targets.
  - intros ref p. apply ref_target_spec.
  - intros st path rest items refs Hnin Hov Hl Hw Hr.
    eexists. split; [by eapply body_saved |]. by split.
Qed.

Lemma references_enqueued_unconditionally_witness :
  ∃ st', body selfref "Widgets" "out" None (initial "Widgets")
           "documentation/Widgets" []
         = Continue st'
       ∧ queue st' = ["documentation/Widgets"]
       ∧ visited st' = ∅ ∪ {["documentation/Widgets"]}.
Proof.
  apply (proj2 (proj2 (references_enqueued_unconditionally
                         selfref "Widgets" "out" None))
           (initial "Widgets") "documentation/Widgets" []
           [("references", VDict [("r1", VDict [("url", VStr "/documentation/Widgets")])])]
           [("r1", VDict [("url", VStr "/documentation/Widgets")])]);
    [set_solver | reflexivity ..].
Defined.

Lemma prefix_other_char (c a : ascii) (s : string) :
  c ≠ a → String.prefix (String c "") (String a s) = false.
Proof. intros Hne. cbn [String.prefix]. by destruct (ascii_dec c a). Qed.

Lemma file_name_no_separator path :
  PyStr.contains (file_name_of path) "/" = false.
Proof.
  unfold file_name_of. induction path as [|a path IH]; [reflexivity |].
  cbn [PyStr.replace]. rewrite str_app_cons, contains_unfold, IH.
  destruct (Ascii.eqb a "/") eqn:E; [reflexivity |].
  apply Ascii.eqb_neq in E. rewrite prefix_other_char; [done | congruence].
Qed.

(** C8: the file of a path is named by the path with every separator
    replaced by an underscore, then [.json]; the files of the destination
    directory are exactly those of the requested paths that were fetched
    and could be written, each holding the document that was fetched (what
    [json.dump] prints with [indent=2] is a function of that document). *)
Theorem stored_file_names w module dest_root limit fuel :
  (∀ path,
     file_name_of path = PyStr.replace "/" "_" path +:+ ".json"
     ∧ PyStr.contains (file_name_of path) "/" = false)
  ∧ file_name_of "documentation/Widgets" = "documentation_Widgets.json"
  ∧ file_name_of "documentation/Widgets/Gadget"
    = "documentation_Widgets_Gadget.json"
  ∧ let st := state_of (fetch_module w module dest_root limit fuel) in
    (∀ name data, files st !! name = Some data →
       ∃ p, p ∈ requested st
         ∧ urlopen w (url_of p) = Loaded data
         ∧ can_write w dest_root (file_name_of p) = true
         ∧ name = file_name_of p)
    ∧ (∀ p data, p ∈ requested st →
         urlopen w (url_of p) = Loaded data →
         can_write w dest_root (file_name_of p) = true →
         is_Some (files st !! file_name_of p)).
Proof.
  split; [intros path; split; [reflexivity | apply file_name_no_separator] |].
  split; [reflexivity |]. split; [reflexivity |].
  exact (fetch_module_stored w module dest_root limit fuel).
Qed.

Lemma stored_file_names_witness :
  dom (files (state_of (fetch_module widgets "Widgets" "out" None 10)))
  = {["documentation_Widgets.json"; "documentation_Widgets_Gadget.json"]}
  ∧ is_Some (files (state_of (fetch_module widgets "Widgets" "out" None 10))
             !! file_name_of "documentation/Widgets/Gadget").
Proof.
  split; [vm_compute; reflexivity |].
  apply (proj2 (proj2 (proj2 (proj2 (stored_file_names
           widgets "Widgets" "out" None 10))))
           "documentation/Widgets/Gadget" (doc_with_refs []));
    [vm_compute; set_solver | reflexivity | reflexivity].
Defined.

Section CopyFileClaims.

Import Essentials.

Lemma copy2_file entries name content dest :
  read entries name = Some content →
  copy2 (Some entries) name dest = Some (<[name := content]> dest).
Proof. intros H. unfold copy2. by rewrite H. Qed.

Lemma copy2_spec raw_dir name dest dest' :
  copy2 raw_dir name dest = Some dest' →
  ∃ entries content,
    raw_dir = Some entries
    ∧ read entries name = Some content
    ∧ dest' = <[name := content]> dest.
Proof.
  unfold copy2. destruct raw_dir as [entries |]; [| done].
  destruct (read entries name) as [content |] eqn:E; [| done].
  intros [= <-]. by exists entries, content.
Qed.

Lemma holds_file_read raw_dir name :
  holds_file raw_dir name = true ↔
  ∃ entries content, raw_dir = Some entries ∧ read entries name = Some content.
Proof.
  unfold holds_file. destruct raw_dir as [entries |].
  - destruct (read entries name) as [content |] eqn:E; split.
    + intros _. by exists entries, content.
    + done.
    + done.
    + intros (? & ? & [= <-] & ?). congruence.
  - split; [done | by intros (? & ? & ? & _)].
Qed.

Lemma copy_file_exact entries dest_dir target_name content :
  read entries target_name = Some content →
  copy_file (Some entries) dest_dir target_name
  = Some ((Some target_name, None), <[target_name := content]> dest_dir).
Proof.
  intros Hr. unfold copy_file.
  rewrite (exists_in_listed _ _ (read_listed _ _ _ Hr)).
  by rewrite (copy2_file _ _ _ _ Hr).
Qed.

(** [copy_file] settles on a name, then copies it. *)
Lemma copy_file_choice raw_dir dest_dir target_name :
  copy_file raw_dir dest_dir target_name
  = match choice raw_dir target_name with
    | Some name =>
        option_map (λ dest', ((Some name, None), dest'))
          (copy2 raw_dir name dest_dir)
    | None => Some ((None, Some target_name), dest_dir)
    end.
Proof.
  unfold copy_file, choice, candidates_of.
  destruct (exists_in raw_dir target_name).
  - by destruct (copy2 raw_dir target_name dest_dir).
  - destruct raw_dir as [entries |]; [| done].
    destruct (sort_by_len _) as [|chosen others]; [done |].
    cbn [List.hd_error].
    by destruct (copy2 (Some entries) chosen dest_dir).
Qed.

Lemma copy_file_result raw_dir dest_dir target_name result dest' :
  copy_file raw_dir dest_dir target_name = Some (result, dest') →
  match choice raw_dir target_name with
  | Some name =>
      ∃ entries content,
        raw_dir = Some entries
        ∧ read entries name = Some content
        ∧ result = (Some name, None)
        ∧ dest' = <[name := content]> dest_dir
  | None => result = (None, Some target_name) ∧ dest' = dest_dir
  end.
Proof.
  rewrite copy_file_choice.
  destruct (choice raw_dir target_name) as [name |].
  - destruct (copy2 raw_dir name dest_dir) as [d |] eqn:E; [| done].
    intros [= <- <-].
    destruct (copy2_spec _ _ _ _ E) as (entries & content & -> & Hr & ->).
    by exists entries, content.
  - by intros [= <- <-].
Qed.

Lemma copy_file_absent raw_dir dest_dir target_name :
  exists_in raw_dir target_name = false →
  (candidates_of raw_dir target_name = []
   ∧ copy_file raw_dir dest_dir target_name
     = Some ((None, Some target_name), dest_dir))
  ∨ (∃ chosen,
       chosen ∈ candidates_of raw_dir target_name
       ∧ (∀ name, name ∈ candidates_of raw_dir target_name →
            (String.length chosen <= String.length name)%nat)
       ∧ choice raw_dir target_name = Some chosen).
Proof.
  intros Hex. rewrite copy_file_choice. unfold choice. rewrite Hex.
  destruct (sort_by_len (candidates_of raw_dir target_name))
    as [|chosen others] eqn:E.
  - left. split; [by apply sort_by_len_nil | done].
  - right. destruct (sort_by_len_head _ _ _ E) as [Hin Hmin].
    by exists chosen.
Qed.




End CopyFileClaims.



(** * Further properties of the crawler *)

(** X1: a limit of zero or less stops the crawl at the seed: the call
    prints the limit line and returns without a request or a file. *)
Theorem nonpositive_limit_fetches_nothing w module dest_root l fuel :
  (l <= 0)%Z →
  makedirs w dest_root = true →
  (1 <= fuel)%nat →
  fetch_module w module dest_root (Some l) fuel
  = Returned VNone
      {| queue := []; visited := ∅ ∪ {[seed_of module]};
         stdout := [ReachedLimit l module]; files := ∅; requested := [] |}.
Proof.
  intros Hl Hmk Hfuel. destruct fuel as [|fuel]; [lia |].
  unfold fetch_module. rewrite Hmk.
  eapply loop_break; [reflexivity |].
  apply body_over_limit; [set_solver |].
  unfold over_limit, initial. cbn [visited]. rewrite size_visited_one.
  apply Z.gtb_gt. lia.
Qed.

Lemma nonpositive_limit_fetches_nothing_witness :
  fetch_module widgets "Widgets" "out" (Some 0%Z) 5
  = Returned VNone
      {| queue := []; visited := ∅ ∪ {["documentation/Widgets"]};
         stdout := [ReachedLimit 0 "Widgets"]; files := ∅; requested := [] |}.
Proof.
  apply (nonpositive_limit_fetches_nothing widgets "Widgets" "out" 0%Z 5);
    [lia | reflexivity | lia].
Defined.

(** X2: a fetched document that is not an object, or whose [references]
    is not an object, ends the call with [AttributeError] after its file
    was written and its [Saved] line printed; the rest of the queue is
    abandoned. *)
Theorem malformed_document_aborts w module dest_root limit fuel st path rest data :
  queue st = path :: rest →
  path ∉ visited st →
  over_limit limit (visited st ∪ {[path]}) = false →
  urlopen w (url_of path) = Loaded data →
  can_write w dest_root (file_name_of path) = true →
  crawlable data = false →
  loop w module dest_root limit (S fuel) st
  = Raised AttributeError
      {| queue := rest; visited := visited st ∪ {[path]};
         stdout := stdout st ++ [Saved path];
         files := <[file_name_of path := data]> (files st);
         requested := requested st ++ [path] |}.
Proof.
  intros Eq Hnin Hov Hl Hw Hc. eapply loop_raise; [exact Eq |].
  unfold body. rewrite decide_False, Hov, Hl, Hw by done.
  unfold crawlable in Hc.
  destruct data as [| | | | | | |items]; try done.
  by destruct (dict_get items "references" (VDict [])).
Qed.

Lemma malformed_document_aborts_witness :
  loop (serve [("documentation/Widgets", VDict [("references", VNone)])])
    "Widgets" "out" None 1 (initial "Widgets")
  = Raised AttributeError
      {| queue := []; visited := ∅ ∪ {["documentation/Widgets"]};
         stdout := [Saved "documentation/Widgets"];
         files := <["documentation_Widgets.json" := VDict [("references", VNone)]]> ∅;
         requested := ["documentation/Widgets"] |}.
Proof.
  apply (malformed_document_aborts
           (serve [("documentation/Widgets", VDict [("references", VNone)])])
           "Widgets" "out" None 0 (initial "Widgets") "documentation/Widgets" []
           (VDict [("references", VNone)]));
    [reflexivity | set_solver | reflexivity ..].
Defined.

(** X3: when the fetch of the seed fails, the call prints the one error
    line and returns: one request, no file, nothing else visited. *)
Theorem failed_seed_ends_crawl w module dest_root limit fuel :
  makedirs w dest_root = true →
  over_limit limit (∅ ∪ {[seed_of module]}) = false →
  loaded w (seed_of module) = false →
  (1 <= fuel)%nat →
  ∃ l, is_failure l = true
     ∧ fetch_module w module dest_root limit fuel
       = Returned VNone
           {| queue := []; visited := ∅ ∪ {[seed_of module]};
              stdout := [l]; files := ∅; requested := [seed_of module] |}.
Proof.
  intros Hmk Hov Hl Hfuel. destruct fuel as [|fuel]; [lia |].
  unfold fetch_module. rewrite Hmk. unfold loaded in Hl.
  destruct (urlopen w (url_of (seed_of module))) as [data | code | exc] eqn:Eu;
    [done | |].
  - exists (HTTPErrorLine code (url_of (seed_of module))). split; [done |].
    erewrite loop_continue; [| reflexivity |]; cycle 1.
    { apply body_http_error; [set_solver | done | done]. }
    by rewrite loop_done.
  - exists (ErrorLine exc). split; [done |].
    erewrite loop_continue; [| reflexivity |]; cycle 1.
    { apply body_other_error; [set_solver | done | done]. }
    by rewrite loop_done.
Qed.

Lemma failed_seed_ends_crawl_witness :
  ∃ l, is_failure l = true
     ∧ fetch_module flaky "Widgets" "out" None 4
       = Returned VNone
           {| queue := []; visited := ∅ ∪ {["documentation/Widgets"]};
              stdout := [l]; files := ∅; requested := ["documentation/Widgets"] |}.
Proof.
  apply (failed_seed_ends_crawl flaky "Widgets" "out" None 4);
    [reflexivity | reflexivity | reflexivity | lia].
Defined.

Lemma dict_get_missing items key default :
  key ∉ List.map fst items → dict_get items key default = default.
Proof.
  induction items as [|[k v] items IH]; simpl; [done |].
  intros Hnin. destruct (String.eqb k key) eqn:E.
  - apply String.eqb_eq in E. set_solver.
  - apply IH. set_solver.
Qed.

(** X4: a seed document that has no [references] key, or none of whose
    references is followed, makes a one-node crawl: one request, one
    [Saved] line, one file holding the document. *)
Theorem leaf_seed_is_single_node w module dest_root limit fuel items :
  makedirs w dest_root = true →
  over_limit limit (∅ ∪ {[seed_of module]}) = false →
  urlopen w (url_of (seed_of module)) = Loaded (VDict items) →
  can_write w dest_root (file_name_of (seed_of module)) = true →
  ("references" ∉ List.map fst items
   ∨ ∃ refs, dict_get items "references" (VDict []) = VDict refs
           ∧ Forall (λ ref, ref_target module ref = None) (dict_values refs)) →
  (1 <= fuel)%nat →
  fetch_module w module dest_root limit fuel
  = Returned VNone
      {| queue := []; visited := ∅ ∪ {[seed_of module]};
         stdout := [Saved (seed_of module)];
         files := <[file_name_of (seed_of module) := VDict items]> ∅;
         requested := [seed_of module] |}.
Proof.
  intros Hmk Hov Hl Hw Hrefs Hfuel. destruct fuel as [|fuel]; [lia |].
  assert (∃ refs, dict_get items "references" (VDict []) = VDict refs
                  ∧ omap (ref_target module) (dict_values refs) = [])
    as (refs & Hr & Hnone).
  { destruct Hrefs as [Hmiss | (refs & Hr & Hall)].
    - exists []. split; [by apply dict_get_missing | done].
    - exists refs. split; [done |].
      induction Hall as [|ref l Href _ IH]; [done |].
      cbn. by rewrite Href. }
  unfold fetch_module. rewrite Hmk.
  erewrite loop_continue; [| reflexivity |]; cycle 1.
  { eapply body_saved; [set_solver | done | exact Hl | exact Hw | exact Hr]. }
  rewrite Hnone. by rewrite loop_done.
Qed.

Lemma leaf_seed_is_single_node_witness :
  fetch_module (serve [("documentation/Widgets", VDict [("title", VStr "Widgets")])])
    "Widgets" "out" None 3
  = Returned VNone
      {| queue := []; visited := ∅ ∪ {["documentation/Widgets"]};
         stdout := [Saved "documentation/Widgets"];
         files := <["documentation_Widgets.json" := VDict [("title", VStr "Widgets")]]> ∅;
         requested := ["documentation/Widgets"] |}.
Proof.
  apply (leaf_seed_is_single_node
           (serve [("documentation/Widgets", VDict [("title", VStr "Widgets")])])
           "Widgets" "out" None 3 [("title", VStr "Widgets")]);
    [reflexivity | reflexivity | reflexivity | reflexivity | | lia].
  left. set_solver.
Defined.

(** ** Normalised paths *)

Lemma lstrip_idem c s : PyStr.lstrip c (PyStr.lstrip c s) = PyStr.lstrip c s.
Proof.
  induction s as [|a s IH]; [done |]. simpl.
  destruct (Ascii.eqb a c) eqn:E; [done |]. simpl. by rewrite E.
Qed.

Lemma rstrip_idem c s : PyStr.rstrip c (PyStr.rstrip c s) = PyStr.rstrip c s.
Proof.
  induction s as [|a s IH]; [done |]. simpl.
  destruct (PyStr.rstrip c s) as [|b r] eqn:Er.
  - destruct (Ascii.eqb a c) eqn:E; [done |]. simpl. by rewrite E.
  - simpl. simpl in IH. by rewrite IH.
Qed.

(** [rstrip] keeps a first character that is not stripped. *)
Lemma rstrip_head c a s :
  Ascii.eqb a c = false → ∃ r, PyStr.rstrip c (String a s) = String a r.
Proof.
  intros E. simpl. destruct (PyStr.rstrip c s); rewrite ?E; by eexists.
Qed.

Lemma lstrip_rstrip_lstrip c s :
  PyStr.lstrip c (PyStr.rstrip c (PyStr.lstrip c s))
  = PyStr.rstrip c (PyStr.lstrip c s).
Proof.
  induction s as [|a s IH]; [done |]. simpl.
  destruct (Ascii.eqb a c) eqn:E; [done |].
  destruct (rstrip_head c a s E) as [r Hr]. rewrite Hr. simpl. by rewrite E.
Qed.

Lemma strip_idem c s : PyStr.strip c (PyStr.strip c s) = PyStr.strip c s.
Proof.
  unfold PyStr.strip. by rewrite lstrip_rstrip_lstrip, rstrip_idem.
Qed.

Lemma seed_normalised module :
  module_ok module = true → PyStr.strip "/" (seed_of module) = seed_of module.
Proof.
  unfold module_ok. intros [Hne Hfix]%andb_true_iff.
  apply negb_true_iff, String.eqb_neq in Hne. apply String.eqb_eq in Hfix.
  unfold PyStr.strip.
  assert (PyStr.lstrip "/" (seed_of module) = seed_of module) as -> by reflexivity.
  unfold seed_of. by apply rstrip_fixed_app.
Qed.

(** X5: stripping separators is idempotent, and (for a module name that is
    not empty and does not end in a separator) every path the crawl
    requests is in stripped form: urls that differ only in leading or
    trailing separators name one and the same path. *)
Theorem requested_paths_normalised w module dest_root limit fuel :
  (∀ s, PyStr.strip "/" (PyStr.strip "/" s) = PyStr.strip "/" s)
  ∧ (module_ok module = true →
     Forall (λ p, PyStr.strip "/" p = p)
       (requested (state_of (fetch_module w module dest_root limit fuel)))).
Proof.
  split; [apply strip_idem |]. intros Hm.
  set (P := λ st : state,
         Forall (λ p, PyStr.strip "/" p = p) (queue st)
         ∧ Forall (λ p, PyStr.strip "/" p = p) (requested st)).
  cut (P (state_of (fetch_module w module dest_root limit fuel)));
    [by intros [_ H] |].
  apply fetch_module_rule.
  - intros st path rest Eq [Hq Hr]. rewrite Eq in Hq.
    apply Forall_cons in Hq as [Hp Hq].
    destruct (body_shape w module dest_root limit st path rest) as [Hq' Hr'].
    split.
    + destruct Hq' as [-> | [refs ->]]; [done |].
      rewrite enqueue_refs_targets. apply Forall_app. split; [done |].
      apply Forall_forall. intros p [ref [_ Hp']]%list_elem_of_omap.
      apply ref_target_spec in Hp' as (items & u & _ & _ & _ & ->).
      apply strip_idem.
    + destruct Hr' as [(_ & _ & ->) | (_ & _ & [-> | [_ ->]])]; [done | done |].
      apply Forall_app. split; [done |]. by apply Forall_singleton.
  - split; simpl; [| constructor]. by apply Forall_singleton, seed_normalised.
  - split; constructor.
Qed.

Lemma requested_paths_normalised_witness :
  module_ok "Widgets" = true
  ∧ Forall (λ p, PyStr.strip "/" p = p)
      (requested (state_of (fetch_module widgets "Widgets" "out" None 10))).
Proof.
  split; [reflexivity |].
  apply (proj2 (requested_paths_normalised widgets "Widgets" "out" None 10)).
  reflexivity.
Defined.

Lemma replace_idem old new s :
  Ascii.eqb new old = false →
  PyStr.replace old new (PyStr.replace old new s) = PyStr.replace old new s.
Proof.
  intros Hne. induction s as [|a s IH]; [done |]. simpl. rewrite IH.
  destruct (Ascii.eqb a old) eqn:E; by rewrite ?Hne, ?E.
Qed.

(** X6: file names are not one per path: a path and the same path with
    its separators already written as underscores get the same file, so
    the later of the two writes replaces the earlier. *)
Theorem file_names_collide path data1 data2 (dir : gmap string value) :
  file_name_of (PyStr.replace "/" "_" path) = file_name_of path
  ∧ <[file_name_of (PyStr.replace "/" "_" path) := data2]>
      (<[file_name_of path := data1]> dir)
    = <[file_name_of path := data2]> dir.
Proof.
  assert (file_name_of (PyStr.replace "/" "_" path) = file_name_of path) as E.
  { unfold file_name_of. by rewrite replace_idem. }
  split; [done |]. rewrite E. apply insert_insert_eq.
Qed.

(** ** The limit only cuts a run short *)

Lemma body_without_limit w module dest_root l st path rest :
  over_limit (Some l) (visited st ∪ {[path]}) = false ∨ path ∈ visited st →
  body w module dest_root (Some l) st path rest
  = body w module dest_root None st path rest.
Proof.
  intros H. unfold body.
  destruct (decide (path ∈ visited st)); [done |].
  destruct H as [-> | H]; done.
Qed.

Lemma loop_requested_grows w module dest_root limit fuel st :
  ∃ more, requested (state_of (loop w module dest_root limit fuel st))
          = requested st ++ more.
Proof.
  revert st. induction fuel as [|fuel IH]; intros st; simpl.
  - exists []. rewrite app_nil_r. by destruct (queue st).
  - destruct (queue st) as [|path rest]; [exists []; by rewrite app_nil_r |].
    destruct (body_shape w module dest_root limit st path rest) as [_ Hr].
    assert (∃ m, requested (state_of_step
                   (body w module dest_root limit st path rest))
                 = requested st ++ m) as [m Hm].
    { destruct Hr as [(_ & _ & ->) | (_ & _ & [-> | [_ ->]])];
        [exists [] | exists [] | exists [path]]; by rewrite ?app_nil_r. }
    destruct (body w module dest_root limit st path rest) as [st' | st' | e st'];
      simpl in *.
    + destruct (IH st') as [m' Hm']. exists (m ++ m').
      by rewrite Hm', Hm, app_assoc.
    + by exists m.
    + by exists m.
Qed.

(** X7: at any number of rounds, the paths requested under a limit are
    an initial part, in the same order, of the paths requested by the run
    without a limit: the limit adds no request and reorders none. *)
Theorem limit_requests_prefix w module dest_root l fuel :
  ∃ more,
    requested (state_of (fetch_module w module dest_root None fuel))
    = requested (state_of (fetch_module w module dest_root (Some l) fuel))
      ++ more.
Proof.
  unfold fetch_module. destruct (makedirs w dest_root); [| by exists []].
  generalize (initial module). induction fuel as [|fuel IH]; intros st.
  - exists []. simpl. rewrite app_nil_r. by destruct (queue st).
  - simpl. destruct (queue st) as [|path rest] eqn:Eq;
      [exists []; by rewrite app_nil_r |].
    destruct (decide (path ∈ visited st)) as [Hin | Hnin].
    { rewrite body_without_limit by by right.
      destruct (body w module dest_root None st path rest); simpl;
        [apply IH | exists []; by rewrite app_nil_r ..]. }
    destruct (over_limit (Some l) (visited st ∪ {[path]})) eqn:Hov.
    + rewrite (body_over_limit w module dest_root (Some l) st path rest Hnin Hov).
      simpl.
      pose proof (loop_requested_grows w module dest_root None (S fuel) st) as H.
      simpl in H. by rewrite Eq in H.
    + rewrite body_without_limit by by left.
      destruct (body w module dest_root None st path rest); simpl;
        [apply IH | exists []; by rewrite app_nil_r ..].
Qed.

(** * Further properties of the essentials sync *)

Section CopyFileMore.

Import Essentials.

(** X8: a target that exists in the raw directory is never replaced by a
    fallback. When it is a regular file it is copied under its own name
    with its own content, whatever shorter names share its stem; when it
    is a directory the call raises. *)
Theorem exact_name_wins entries dest_dir target_name :
  exists_in (Some entries) target_name = true →
  match read entries target_name with
  | Some content =>
      copy_file (Some entries) dest_dir target_name
      = Some ((Some target_name, None), <[target_name := content]> dest_dir)
  | None => copy_file (Some entries) dest_dir target_name = None
  end.
Proof.
  intros Hex. destruct (read entries target_name) as [content |] eqn:Hr.
  - by apply copy_file_exact.
  - unfold copy_file, copy2. by rewrite Hex, Hr.
Qed.

Lemma exact_name_wins_witness :
  ∃ content,
    read [("foo", File "stem"); ("foo.json", File "exact")] "foo.json"
    = Some content
    ∧ copy_file (Some [("foo", File "stem"); ("foo.json", File "exact")]) ∅
        "foo.json"
      = Some ((Some "foo.json", None), <["foo.json" := content]> ∅).
Proof.
  exists "exact". split; [reflexivity |].
  apply (exact_name_wins [("foo", File "stem"); ("foo.json", File "exact")] ∅
           "foo.json").
  reflexivity.
Defined.

Lemma sort_by_len_first l chosen others :
  sort_by_len l = chosen :: others →
  ∃ before after,
    l = before ++ chosen :: after
    ∧ (∀ name, name ∈ before → (String.length chosen < String.length name)%nat)
    ∧ (∀ name, name ∈ after → (String.length chosen <= String.length name)%nat).
Proof.
  revert chosen others. induction l as [|y l IH]; intros chosen others E;
    [done |].
  simpl in E. destruct (sort_by_len l) as [|c o] eqn:Es.
  - apply sort_by_len_nil in Es as ->. simpl in E. injection E as <- <-.
    exists [], []. split_and!; [done | by intros ? ?%elem_of_nil ..].
  - destruct (IH c o eq_refl) as (b & a & -> & Hb & Ha).
    simpl in E. destruct (String.length y <=? String.length c)%nat eqn:Ec.
    + apply Nat.leb_le in Ec. injection E as <- <-.
      exists [], (b ++ c :: a). split_and!; [done | by intros ? ?%elem_of_nil |].
      intros name [Hn | [-> | Hn]%elem_of_cons]%elem_of_app.
      * specialize (Hb name Hn). lia.
      * done.
      * specialize (Ha name Hn). lia.
    + apply Nat.leb_gt in Ec. injection E as <- <-.
      exists (y :: b), a. split_and!; [done | | done].
      intros name [-> | Hn]%elem_of_cons; [done | by apply Hb].
Qed.

(** X9: among candidates of the same least length, the one [os.listdir]
    lists first is chosen: every candidate listed before the chosen one is
    strictly longer, every one after it at least as long. *)
Theorem first_shortest_candidate_chosen raw_dir dest_dir target_name chosen dest' :
  exists_in raw_dir target_name = false →
  copy_file raw_dir dest_dir target_name = Some ((Some chosen, None), dest') →
  ∃ before after,
    candidates_of raw_dir target_name = before ++ chosen :: after
    ∧ (∀ name, name ∈ before → (String.length chosen < String.length name)%nat)
    ∧ (∀ name, name ∈ after → (String.length chosen <= String.length name)%nat).
Proof.
  intros Hex. unfold copy_file, candidates_of. rewrite Hex.
  destruct raw_dir as [entries |]; [| done].
  set (candidates := List.filter _ _).
  destruct (sort_by_len candidates) as [|c o] eqn:Es; [done |].
  destruct (copy2 (Some entries) c dest_dir); [| done].
  intros [= -> _]. by eapply sort_by_len_first.
Qed.

Lemma first_shortest_candidate_chosen_witness :
  ∃ before after,
    candidates_of (Some raw_sample) "foo.json" = before ++ "foo_x.json" :: after
    ∧ (∀ name, name ∈ before →
         (String.length "foo_x.json" < String.length name)%nat)
    ∧ (∀ name, name ∈ after →
         (String.length "foo_x.json" <= String.length name)%nat).
Proof.
  apply (first_shortest_candidate_chosen (Some raw_sample) ∅ "foo.json"
           "foo_x.json" (<["foo_x.json" := "2"]> ∅));
    [reflexivity | vm_compute; reflexivity].
Defined.

(** X10: whatever [copy_file] copies is an entry of the raw directory,
    written to the destination under the same name with the same content;
    no other file of the destination changes. *)
Theorem copy_is_verbatim raw_dir dest_dir target_name name dest' :
  copy_file raw_dir dest_dir target_name = Some ((Some name, None), dest') →
  ∃ entries content,
    raw_dir = Some entries
    ∧ read entries name = Some content
    ∧ dest' !! name = Some content
    ∧ ∀ other, other ≠ name → dest' !! other = dest_dir !! other.
Proof.
  intros E. apply copy_file_result in E.
  destruct (choice raw_dir target_name) as [chosen |]; [| by destruct E].
  destruct E as (entries & content & -> & Hr & [= ->] & ->).
  exists entries, content. split_and!; [done | done | |].
  - apply lookup_insert_eq.
  - intros other Hne. by apply lookup_insert_ne.
Qed.

Lemma copy_is_verbatim_witness :
  ∃ entries content,
    Some raw_sample = Some entries
    ∧ read entries "foo_x.json" = Some content
    ∧ (<["foo_x.json" := "2"]> (∅ : gmap string string)) !! "foo_x.json"
      = Some content
    ∧ ∀ other, other ≠ "foo_x.json" →
        (<["foo_x.json" := "2"]> (∅ : gmap string string)) !! other
        = (∅ : gmap string string) !! other.
Proof.
  apply (copy_is_verbatim (Some raw_sample) ∅ "foo.json").
  vm_compute. reflexivity.
Defined.

Lemma substring_zero s : String.substring 0 0 s = "".
Proof. by destruct s. Qed.

Lemma prefix_empty s : String.prefix "" s = true.
Proof. by destruct s. Qed.

(** X12: a target name of five characters or fewer has an empty stem, so
    every entry of the raw directory is a candidate. Take such a target
    without a path separator that does not exist in the raw directory
    (which rules out the empty name, [.] and [..]), and a raw directory
    that is not empty and holds regular files only, names being of ASCII
    characters: the shortest entry is copied, whatever its name. *)
Theorem short_target_matches_everything entries dest_dir target_name :
  (String.length target_name <= 5)%nat →
  flat target_name = true →
  one_byte target_name = true →
  exists_in (Some entries) target_name = false →
  entries ≠ [] →
  (∀ name, name ∈ listdir entries →
     one_byte name = true ∧ holds_file (Some entries) name = true) →
  ∃ chosen content,
    chosen ∈ listdir entries
    ∧ (∀ name, name ∈ listdir entries →
         (String.length chosen <= String.length name)%nat)
    ∧ copy_file (Some entries) dest_dir target_name
      = Some ((Some chosen, None), <[chosen := content]> dest_dir).
Proof.
  intros Hlen _ _ Hex Hne Hfiles.
  assert (candidates_of (Some entries) target_name = listdir entries) as Hall.
  { unfold candidates_of, PyStr.drop_last.
    replace (String.length target_name - 5)%nat with 0%nat by lia.
    rewrite substring_zero. unfold PyStr.startswith.
    generalize (listdir entries). intros l.
    induction l as [|n l IH]; [done |].
    simpl. by rewrite prefix_empty, IH. }
  destruct (copy_file_absent (Some entries) dest_dir target_name Hex)
    as [[Hnil _] | (chosen & Hin & Hmin & Hch)].
  - rewrite Hall in Hnil. by destruct entries.
  - rewrite Hall in Hin, Hmin.
    destruct (Hfiles chosen Hin) as [_ Hf].
    apply holds_file_read in Hf as (e & content & [= <-] & Hr).
    exists chosen, content. split_and!; [done | done |].
    rewrite copy_file_choice, Hch. cbn [option_map].
    by rewrite (copy2_file _ _ _ _ Hr).
Qed.

Lemma short_target_matches_everything_witness :
  ∃ chosen content,
    chosen ∈ listdir raw_sample
    ∧ (∀ name, name ∈ listdir raw_sample →
         (String.length chosen <= String.length name)%nat)
    ∧ copy_file (Some raw_sample) ∅ "x.md"
      = Some ((Some chosen, None), <[chosen := content]> ∅).
Proof.
  apply (short_target_matches_everything raw_sample ∅ "x.md");
    [vm_compute; lia | reflexivity | reflexivity | reflexivity | discriminate |].
  intros name Hin.
  change (name ∈ ["foo_bar_baz.json"; "foo_x.json"; "foo_y.json"; "zzz.json"])
    in Hin.
  repeat (apply elem_of_cons in Hin as [-> | Hin]; [split; reflexivity |]).
  by apply elem_of_nil in Hin.
Defined.

End CopyFileMore.

(** ** Names found in a README *)

Section ReadmeNames.

Import Essentials Populate.

Lemma all_chars_app p s r :
  all_chars p (s +:+ r) = all_chars p s && all_chars p r.
Proof.
  induction s as [|a s IH]; [done |].
  rewrite str_app_cons. simpl. by rewrite IH, andb_assoc.
Qed.

Lemma after_prefix_sound p s r : after_prefix p s = Some r → s = p +:+ r.
Proof.
  revert s. induction p as [|a p IH]; intros s; simpl.
  - by intros [= ->].
  - destruct s as [|b s]; [done |].
    destruct (Ascii.eqb a b) eqn:E; [| done].
    apply Ascii.eqb_eq in E as ->. intros H. by rewrite (IH s H).
Qed.

Lemma json_tail_sound s m :
  json_tail s = Some m →
  ∃ y rest, m = y +:+ ".json" ∧ s = m +:+ rest ∧ all_chars name_char y = true.
Proof.
  revert m. induction s as [|a s IH]; intros m; [done |].
  cbn [json_tail].
  destruct (if name_char a then json_tail s else None) as [m' |] eqn:E.
  - intros [= <-]. destruct (name_char a) eqn:Ea; [| done].
    destruct (IH m' E) as (y & rest & -> & Hs & Hy).
    exists (String a y), rest.
    split_and!; [reflexivity | exact (f_equal (String a) Hs) |].
    simpl. by rewrite Ea, Hy.
  - destruct (String.prefix ".json" (String a s)) eqn:Ep; [| done].
    intros [= <-]. apply str_prefix_split in Ep as [rest Hrest].
    by exists "", rest.
Qed.

Lemma match_here_sound text name :
  match_here text = Some name →
  ∃ stem rest,
    name = stem +:+ ".json"
    ∧ stem ≠ ""
    ∧ all_chars name_char name = true
    ∧ text = "essentials/" +:+ (name +:+ rest).
Proof.
  unfold match_here.
  destruct (after_prefix "essentials/" text) as [[|a s] |] eqn:E; [done | | done].
  apply after_prefix_sound in E as ->.
  destruct (name_char a) eqn:Ea; [| done].
  destruct (json_tail s) as [m |] eqn:Ej; [| done].
  intros [= <-]. destruct (json_tail_sound s m Ej) as (y & rest & -> & -> & Hy).
  exists (String a y), rest. split_and!; [reflexivity | done | | reflexivity].
  change (all_chars name_char (String a (y +:+ ".json")) = true).
  simpl. by rewrite Ea, all_chars_app, Hy.
Qed.

Lemma no_separator_in_name s :
  all_chars name_char s = true → PyStr.contains s "/" = false.
Proof.
  induction s as [|a s IH]; [done |]. cbn [all_chars].
  intros [Ha Hs]%andb_true_iff. rewrite contains_unfold, (IH Hs), orb_false_r.
  destruct (ascii_dec "/" a) as [<- | Hne]; [by vm_compute in Ha |].
  by apply prefix_other_char.
Qed.

Lemma findall_from_sound text skip name :
  name ∈ findall_from skip text →
  ∃ stem,
    name = stem +:+ ".json"
    ∧ stem ≠ ""
    ∧ all_chars name_char name = true
    ∧ PyStr.contains text ("essentials/" +:+ name) = true.
Proof.
  revert skip. induction text as [|a text IH]; intros skip;
    [by intros ?%elem_of_nil |].
  assert (∀ k, name ∈ findall_from k text →
               ∃ stem, name = stem +:+ ".json" ∧ stem ≠ ""
                 ∧ all_chars name_char name = true
                 ∧ PyStr.contains (String a text) ("essentials/" +:+ name) = true)
    as Hlater.
  { intros k (stem & H1 & H2 & H3 & H4)%IH. exists stem.
    split_and!; [done ..|]. rewrite contains_unfold, H4. apply orb_true_r. }
  cbn [findall_from]. destruct skip as [|skip]; [| apply Hlater].
  destruct (match_here (String a text)) as [found |] eqn:E; [| apply Hlater].
  intros [-> | Hin]%elem_of_cons; [| by eapply Hlater].
  destruct (match_here_sound _ _ E) as (stem & rest & -> & Hne & Hall & ->).
  exists stem. split_and!; [done ..|].
  rewrite <- str_app_assoc, <- (str_app_nil (_ +:+ rest)). apply contains_app.
Qed.

(** X13: every name [PATTERN] finds in a README is a non-empty stem of
    name characters followed by [.json], holds no path separator, and
    stands in the text behind [essentials/]; so the stem [copy_file] cuts
    off such a name is the name without its extension. *)
Theorem found_names_are_json_names text name :
  name ∈ findall text →
  ∃ stem,
    name = stem +:+ ".json"
    ∧ stem ≠ ""
    ∧ all_chars name_char name = true
    ∧ PyStr.contains name "/" = false
    ∧ PyStr.contains text ("essentials/" +:+ name) = true
    ∧ PyStr.drop_last 5 name = stem.
Proof.
  intros (stem & -> & Hne & Hall & Hin)%findall_from_sound.
  exists stem. split_and!; [done | done | done | | done |].
  - by apply no_separator_in_name.
  - apply drop_last_json.
Qed.

Lemma found_names_are_json_names_witness :
  findall readme_sample = ["zeta.json"; "beta.json"; "alpha.json"; "zeta.json"]
  ∧ ∃ stem,
      "beta.json" = stem +:+ ".json"
      ∧ stem ≠ ""
      ∧ all_chars name_char "beta.json" = true
      ∧ PyStr.contains "beta.json" "/" = false
      ∧ PyStr.contains readme_sample ("essentials/" +:+ "beta.json") = true
      ∧ PyStr.drop_last 5 "beta.json" = stem.
Proof.
  split; [vm_compute; reflexivity |].
  apply (found_names_are_json_names readme_sample "beta.json").
  vm_compute. set_solver.
Defined.

End ReadmeNames.

(** ** Processing a folder *)

Section ProcessDirectory.

Import Essentials Populate.

Lemma insert_sorted_perm x l : insert_sorted x l ≡ₚ x :: l.
Proof.
  induction l as [|y l IH]; simpl; [done |].
  destruct (String.leb x y); [done |]. rewrite IH. apply Permutation_swap.
Qed.

Lemma sorted_perm l : sorted l ≡ₚ l.
Proof.
  induction l as [|x l IH]; simpl; [done |].
  by rewrite insert_sorted_perm, IH.
Qed.

Lemma bfilter_elem (f : string → bool) l x :
  x ∈ List.filter f l ↔ x ∈ l ∧ f x = true.
Proof. by rewrite !list_elem_of_In, List.filter_In. Qed.

Lemma bfilter_perm (f : string → bool) l l' :
  l ≡ₚ l' → List.filter f l ≡ₚ List.filter f l'.
Proof.
  induction 1 as [|x l l' _ IH|x y l|l l' l'' _ IH1 _ IH2]; simpl.
  - done.
  - destruct (f x); by rewrite IH.
  - destruct (f x), (f y); try done. apply Permutation_swap.
  - by rewrite IH1.
Qed.

Lemma bfilter_nodup (f : string → bool) l :
  NoDup l → NoDup (List.filter f l).
Proof.
  induction 1 as [|x l Hx _ IH]; simpl; [constructor |].
  destruct (f x); [| done]. constructor; [| done].
  rewrite bfilter_elem. naive_solver.
Qed.

Lemma sort_by_len_some l : l ≠ [] → ∃ x o, sort_by_len l = x :: o.
Proof.
  intros Hne. destruct (sort_by_len l) as [|x o] eqn:E; [| by eexists _, _].
  by apply sort_by_len_nil in E.
Qed.

Lemma choice_available raw_dir target_name :
  available raw_dir target_name = true ↔ is_Some (choice raw_dir target_name).
Proof.
  unfold available, choice.
  destruct (exists_in raw_dir target_name); cbn [orb]; [by split; eauto |].
  destruct (candidates_of raw_dir target_name) as [|c l] eqn:E.
  - cbn. split; [done | by intros [? ?]].
  - destruct (sort_by_len_some (c :: l)) as (x & o & ->); [done |].
    cbn. split; eauto.
Qed.

(** The loop over the sorted names, when it comes to its end: what it
    counts, what it reports as missing and what it leaves in the
    destination. *)
Lemma copy_all_spec raw_dir names copied missing dest_dir copied' missing' dest' :
  named raw_dir →
  Forall (λ name, name ≠ "") names →
  copy_all raw_dir names copied missing dest_dir
  = Some ((copied', missing'), dest') →
  copied' = (copied + List.length (List.filter (available raw_dir) names))%nat
  ∧ missing'
    = missing ++ List.filter (λ name, negb (available raw_dir name)) names
  ∧ (∀ name, name ∉ omap (choice raw_dir) names →
       dest' !! name = dest_dir !! name)
  ∧ (∀ name, name ∈ omap (choice raw_dir) names →
       ∃ entries content, raw_dir = Some entries
         ∧ read entries name = Some content
         ∧ dest' !! name = Some content).
Proof.
  intros Hnamed Hnames. revert copied missing dest_dir.
  induction Hnames as [|target names Htarget _ IH];
    intros copied missing dest_dir E.
  - simpl in E. injection E as <- <- <-. rewrite Nat.add_0_r, app_nil_r.
    split_and!; [done | done | done | by intros ? ?%elem_of_nil].
  - cbn [copy_all] in E.
    destruct (copy_file raw_dir dest_dir target) as [[[cn mn] d1] |] eqn:Ec;
      [| done].
    pose proof (copy_file_result _ _ _ _ _ Ec) as Hc.
    pose proof (choice_available raw_dir target) as Ha.
    cbn [List.filter omap list_omap].
    destruct (choice raw_dir target) as [chosen |] eqn:Ech.
    + destruct Hc as (entries & content & -> & Hread & [= -> ->] & ->).
      assert (available (Some entries) target = true) as -> by (apply Ha; eauto).
      assert (chosen ≠ "") as Hne.
      { specialize (Hnamed entries eq_refl). rewrite Forall_forall in Hnamed.
        apply Hnamed. by eapply read_listed. }
      cbn [truthy_name negb] in E. apply String.eqb_neq in Hne.
      rewrite Hne in E. cbn [negb] in E.
      apply IH in E as (-> & -> & Hout & Hin).
      split_and!.
      * simpl. lia.
      * done.
      * intros name Hnin. rewrite Hout by set_solver.
        apply lookup_insert_ne. set_solver.
      * intros name [-> | Hn]%elem_of_cons; [| by apply Hin].
        destruct (decide (chosen ∈ omap (choice (Some entries)) names))
          as [Hlater | Hnot]; [by apply Hin |].
        exists entries, content. split_and!; [done | done |].
        rewrite Hout by done. apply lookup_insert_eq.
    + destruct Hc as [[= -> ->] ->].
      assert (available raw_dir target = false) as ->.
      { destruct (available raw_dir target); [| done].
        destruct (proj1 Ha eq_refl) as [? ?]. done. }
      cbn [truthy_name negb default] in E. apply String.eqb_neq in Htarget.
      rewrite Htarget in E. cbn [negb] in E.
      change (id target) with target in E.
      apply IH in E as (-> & -> & Hout & Hin).
      split_and!; [done | | done | done].
      by rewrite <- app_assoc.
Qed.

Lemma filenames_nonempty content :
  Forall (λ name, name ≠ "") (sorted (filenames_of content)).
Proof.
  apply Forall_forall. intros name Hin.
  rewrite sorted_perm in Hin. unfold filenames_of in Hin.
  rewrite elem_of_remove_dups in Hin.
  apply findall_from_sound in Hin as (stem & -> & _).
  by destruct stem.
Qed.

(** X14: when [process_directory] returns, it has left README and raw
    directory alone, and every distinct name the README asks for is
    either counted as copied or listed as missing, never both: the count
    and the length of the missing list add up to the number of names, and
    the count is the number of names the raw directory can serve. *)
Theorem process_directory_tally d copied missing d' :
  named (raw d) →
  process_directory d = Some ((copied, missing), d') →
  readme d' = readme d
  ∧ raw d' = raw d
  ∧ (copied + List.length missing)%nat = List.length (names_of d)
  ∧ copied = List.length (List.filter (available (raw d)) (names_of d)).
Proof.
  intros Hnamed. unfold process_directory, names_of.
  destruct (readme d) as [content |] eqn:Er.
  2: { intros [= <- <- <-]. by rewrite Er. }
  destruct (filenames_of content) as [|n l] eqn:Ef.
  { intros [= <- <- <-]. by rewrite Er. }
  rewrite <- Ef.
  destruct (copy_all _ _ _ _ _) as [[[c m] dest'] |] eqn:E; [| done].
  apply copy_all_spec in E as (-> & -> & _);
    [| done | apply filenames_nonempty].
  intros [= <- <- <-]. simpl.
  assert (∀ f, List.length (List.filter f (sorted (filenames_of content)))
               = List.length (List.filter f (filenames_of content))) as Hlen.
  { intros f. apply Permutation_length, bfilter_perm, sorted_perm. }
  split_and!; [done | done | | apply Hlen].
  rewrite !Hlen. apply List.filter_length.
Qed.

Lemma process_directory_tally_witness :
  readme folder_sample = readme folder_sample
  ∧ raw folder_sample = raw folder_sample
  ∧ (2 + List.length ["alpha.json"])%nat = List.length (names_of folder_sample)
  ∧ 2%nat
    = List.length (List.filter (available (raw folder_sample))
                     (names_of folder_sample)).
Proof.
  apply (process_directory_tally folder_sample 2 ["alpha.json"]
           {| readme := readme folder_sample; raw := raw folder_sample;
              essentials := Some (<["beta-v2.json" := "b2"]>
                                    (<["zeta.json" := "z"]> ∅)) |}).
  - intros entries [= <-]. repeat constructor; discriminate.
  - vm_compute. reflexivity.
Defined.

(** X15: the missing list holds each name once, and holds exactly the
    names of the README that the raw directory cannot serve: neither the
    name itself nor any entry that starts with its stem is there. *)
Theorem missing_names_characterised d copied missing d' :
  named (raw d) →
  process_directory d = Some ((copied, missing), d') →
  NoDup missing
  ∧ ∀ name, name ∈ missing ↔
      name ∈ names_of d
      ∧ exists_in (raw d) name = false
      ∧ candidates_of (raw d) name = [].
Proof.
  intros Hnamed. unfold process_directory, names_of.
  assert (∀ name, available (raw d) name = false ↔
            exists_in (raw d) name = false ∧ candidates_of (raw d) name = [])
    as Hav.
  { intros name. unfold available.
    destruct (exists_in (raw d) name); simpl; [naive_solver |].
    destruct (candidates_of (raw d) name); simpl; naive_solver. }
  destruct (readme d) as [content |] eqn:Er.
  2: { intros [= <- <- <-]. split; [constructor | set_solver]. }
  destruct (filenames_of content) as [|n l] eqn:Ef.
  { intros [= <- <- <-]. split; [constructor | set_solver]. }
  rewrite <- Ef.
  destruct (copy_all _ _ _ _ _) as [[[c m] dest'] |] eqn:E; [| done].
  apply copy_all_spec in E as (-> & -> & _);
    [| done | apply filenames_nonempty].
  intros [= <- <- <-]. simpl. split.
  - apply bfilter_nodup. rewrite sorted_perm. apply NoDup_remove_dups.
  - intros name. rewrite bfilter_elem, sorted_perm, <- Hav.
    destruct (available (raw d) name); naive_solver.
Qed.

Lemma missing_names_characterised_witness :
  NoDup ["alpha.json"]
  ∧ ∀ name, name ∈ ["alpha.json"] ↔
      name ∈ names_of folder_sample
      ∧ exists_in (raw folder_sample) name = false
      ∧ candidates_of (raw folder_sample) name = [].
Proof.
  apply (missing_names_characterised folder_sample 2 ["alpha.json"]
           {| readme := readme folder_sample; raw := raw folder_sample;
              essentials := Some (<["beta-v2.json" := "b2"]>
                                    (<["zeta.json" := "z"]> ∅)) |}).
  - intros entries [= <-]. repeat constructor; discriminate.
  - vm_compute. reflexivity.
Defined.



End ProcessDirectory.

(** * Further properties of the crawl as a whole *)

Lemma size_visit (X : gset string) (p : string) :
  p ∉ X → size (X ∪ {[p]}) = S (size X).
Proof.
  intros Hp. rewrite size_union by set_solver. rewrite size_singleton. lia.
Qed.

Lemma loop_limit_line w module dest_root l fuel st :
  (0 <= l)%Z →
  under_limit l module st →
  let st' := state_of (loop w module dest_root (Some l) fuel st) in
  ReachedLimit l module ∈ stdout st' →
  Z.of_nat (List.length (requested st')) = l.
Proof.
  intros Hl. revert st. induction fuel as [|fuel IH]; intros st (Hno & Hsz & Hle).
  - simpl. by destruct (queue st).
  - simpl. destruct (queue st) as [|path rest]; [done |].
    unfold body. destruct (decide (path ∈ visited st)) as [Hin | Hnin].
    { apply IH. by split_and!. }
    pose proof (size_visit _ _ Hnin) as Hs.
    destruct (over_limit (Some l) (visited st ∪ {[path]})) eqn:Hov.
    { simpl. intros _. simpl in Hov. apply Z.gtb_gt in Hov. lia. }
    simpl in Hov. rewrite Z.gtb_ltb in Hov. apply Z.ltb_ge in Hov.
    assert (∀ q fl ln,
      ln ≠ ReachedLimit l module →
      under_limit l module
        {| queue := q; visited := visited st ∪ {[path]};
           stdout := stdout st ++ [ln]; files := fl;
           requested := requested st ++ [path] |}) as Hnext.
    { intros q fl ln Hln. split_and!; simpl.
      - intros [? | Heq%list_elem_of_singleton]%elem_of_app; [done | congruence].
      - rewrite length_app. simpl. lia.
      - done. }
    destruct (urlopen w (url_of path)) as [data | code | exc];
      [| by apply IH, Hnext ..].
    destruct (can_write w dest_root (file_name_of path)).
    + destruct data as [| | | | | | |items];
        try (simpl; by intros [? | ?%list_elem_of_singleton]%elem_of_app).
      destruct (dict_get items "references" (VDict []));
        try (simpl; by intros [? | ?%list_elem_of_singleton]%elem_of_app).
      by apply IH, Hnext.
    + simpl. done.
Qed.

(** X17: under a limit of zero or more, a printed limit line means that
    exactly that many paths were requested before the call stopped. *)
Theorem limit_line_counts_requests w module dest_root l fuel :
  (0 <= l)%Z →
  let st := state_of (fetch_module w module dest_root (Some l) fuel) in
  ReachedLimit l module ∈ stdout st →
  Z.of_nat (List.length (requested st)) = l.
Proof.
  intros Hl. unfold fetch_module.
  destruct (makedirs w dest_root); [| simpl; by intros ?%elem_of_nil].
  apply loop_limit_line; [done |].
  unfold under_limit, initial. cbn [visited requested stdout].
  rewrite size_empty. split_and!; [by intros ?%elem_of_nil | done | lia].
Qed.

Lemma limit_line_counts_requests_witness :
  ReachedLimit 1 "Widgets"
    ∈ stdout (state_of (fetch_module fanout "Widgets" "out" (Some 1%Z) 5))
  ∧ Z.of_nat (List.length
       (requested (state_of (fetch_module fanout "Widgets" "out" (Some 1%Z) 5))))
    = 1%Z.
Proof.
  assert (ReachedLimit 1 "Widgets"
            ∈ stdout (state_of (fetch_module fanout "Widgets" "out" (Some 1%Z) 5)))
    as H by (vm_compute; set_solver).
  split; [exact H |].
  apply (limit_line_counts_requests fanout "Widgets" "out" 1%Z 5); [lia | exact H].
Defined.

Lemma links_loaded w module path items refs :
  urlopen w (url_of path) = Loaded (VDict items) →
  dict_get items "references" (VDict []) = VDict refs →
  links w module path = omap (ref_target module) (dict_values refs).
Proof. intros Hl Hr. unfold links. by rewrite Hl, Hr. Qed.

Lemma links_failed w module path :
  loaded w path = false → links w module path = [].
Proof.
  unfold loaded, links. by destruct (urlopen w (url_of path)).
Qed.

Lemma body_covering w module dest_root st path rest :
  queue st = path :: rest →
  covering w module st →
  match body w module dest_root None st path rest with
  | Continue st' => covering w module st'
  | _ => True
  end.
Proof.
  intros Eq (Hv & Hl & Hr). rewrite Eq in Hl, Hr.
  assert (reachable w module path) as Hpath by (apply Hr; right; by left).
  destruct (decide (path ∈ visited st)) as [Hin | Hnin].
  { rewrite body_visited by done. split_and!; simpl.
    - done.
    - intros p p' Hp Hp'.
      destruct (Hl p p' Hp Hp') as [? | [-> | ?]%elem_of_cons]; auto.
    - intros p [? | ?]; apply Hr; [by left | right; by right]. }
  assert (∀ q out fl,
    (∀ p', p' ∈ links w module path → p' ∈ q) →
    (∀ p', p' ∈ q → p' ∈ rest ∨ p' ∈ links w module path) →
    (∀ p', p' ∈ rest → p' ∈ q) →
    covering w module
      {| queue := q; visited := visited st ∪ {[path]}; stdout := out;
         files := fl; requested := requested st ++ [path] |}) as Hnext.
  { intros q out fl Hnew Hq Hrest. split_and!; simpl.
    - intros p. rewrite elem_of_union, elem_of_app, Hv.
      by rewrite elem_of_singleton, list_elem_of_singleton.
    - intros p p' [Hp | ->%list_elem_of_singleton]%elem_of_app Hp'.
      + destruct (Hl p p' Hp Hp') as [? | [-> | ?]%elem_of_cons].
        * left. set_solver.
        * left. set_solver.
        * right. by apply Hrest.
      + right. by apply Hnew.
    - intros p [[Hp | ->%list_elem_of_singleton]%elem_of_app | Hp].
      + apply Hr. by left.
      + done.
      + destruct (Hq p Hp) as [? | ?].
        * apply Hr. right. by right.
        * by eapply reach_link. }
  unfold body. rewrite decide_False by done. cbn [over_limit].
  destruct (urlopen w (url_of path)) as [data | code | exc] eqn:Eu.
  2,3: apply Hnext; [| by left | done];
       rewrite links_failed by (unfold loaded; by rewrite Eu);
       by intros ? ?%elem_of_nil.
  destruct (can_write w dest_root (file_name_of path)); [| done].
  destruct data as [| | | | | | |items]; try done.
  destruct (dict_get items "references" (VDict [])) as [| | | | | | |refs] eqn:Er;
    try done.
  rewrite enqueue_refs_targets, <- (links_loaded w module path items refs Eu Er).
  apply Hnext; set_solver.
Qed.

Lemma loop_covering w module dest_root fuel st r st' :
  covering w module st →
  loop w module dest_root None fuel st = Returned r st' →
  covering w module st' ∧ queue st' = [].
Proof.
  revert st. induction fuel as [|fuel IH]; intros st Hc; simpl.
  - destruct (queue st) eqn:Eq; [| done]. by intros [= _ <-].
  - destruct (queue st) as [|path rest] eqn:Eq; [by intros [= _ <-] |].
    pose proof (body_covering w module dest_root st path rest Eq Hc) as Hb.
    assert (∀ s, body w module dest_root None st path rest ≠ Break s) as Hnb.
    { intros s. unfold body. repeat case_match; done. }
    destruct (body w module dest_root None st path rest) as [s | s | e s];
      [by apply IH | by destruct (Hnb s) | done].
Qed.

(** X18: a crawl without a limit that returns has requested exactly the
    paths reachable from the seed through the references it follows:
    none is left out, and nothing else is requested. *)
Theorem crawl_covers_reachable w module dest_root fuel r st :
  fetch_module w module dest_root None fuel = Returned r st →
  ∀ p, p ∈ requested st ↔ reachable w module p.
Proof.
  unfold fetch_module. destruct (makedirs w dest_root); [| done].
  intros E.
  destruct (loop_covering w module dest_root fuel (initial module) r st)
    as ((Hv & Hl & Hr) & Hq); [| done |].
  { split_and!; simpl.
    - set_solver.
    - by intros ?? ?%elem_of_nil.
    - intros p [?%elem_of_nil | ->%list_elem_of_singleton]; [done |].
      constructor. }
  assert (seed_of module ∈ requested st) as Hseed.
  { destruct fuel as [|fuel]; [done |].
    pose proof (loop_requested_grows w module dest_root None (S fuel)
                  (initial module)) as Hg.
    rewrite E in Hg. simpl in E. unfold body in E.
    rewrite decide_False in E by set_solver. cbn [over_limit] in E.
    cbn [initial requested app] in E.
    destruct (urlopen w (url_of (seed_of module))) as [data | code | exc];
      [destruct (can_write w dest_root (file_name_of (seed_of module)));
       [destruct data as [| | | | | | |items]; try done;
        destruct (dict_get items "references" (VDict [])); try done |
        done] | |];
      match type of E with
      | loop _ _ _ _ _ ?s = _ =>
          destruct (loop_requested_grows w module dest_root None fuel s)
            as [more Hm];
          rewrite E in Hm; simpl in Hm; rewrite Hm; by left
      end. }
  intros p. split; [intros Hp; apply Hr; by left |].
  induction 1 as [|p p' _ IH Hp']; [done |].
  destruct (Hl p p' IH Hp') as [Hin | Hin]; [by apply Hv |].
  rewrite Hq in Hin. by apply elem_of_nil in Hin.
Qed.

Lemma crawl_covers_reachable_witness :
  reachable widgets "Widgets" "documentation/Widgets/Gadget"
  ∧ ¬ reachable widgets "Widgets" "documentation/Other/Thing".
Proof.
  pose proof (crawl_covers_reachable widgets "Widgets" "out" 10 VNone
                (state_of (fetch_module widgets "Widgets" "out" None 10))
                ltac:(vm_compute; reflexivity)) as H.
  split.
  - apply H. vm_compute. set_solver.
  - intros Hr. apply H in Hr. vm_compute in Hr.
    repeat (apply elem_of_cons in Hr as [Hr | Hr]; [discriminate Hr |]).
    by apply elem_of_nil in Hr.
Defined.

(** X19: whatever the limit and however the call ends, every requested
    path is reachable from the seed through followed references. *)
Theorem requests_are_reachable w module dest_root limit fuel :
  Forall (reachable w module)
    (requested (state_of (fetch_module w module dest_root limit fuel))).
Proof.
  set (P := λ st : state,
         Forall (reachable w module) (queue st)
         ∧ Forall (reachable w module) (requested st)).
  cut (P (state_of (fetch_module w module dest_root limit fuel)));
    [by intros [_ H] |].
  apply fetch_module_rule.
  - intros st path rest Eq [Hq Hr]. rewrite Eq in Hq.
    apply Forall_cons in Hq as [Hp Hq].
    assert (Forall (reachable w module) (requested st ++ [path])) as Hr'.
    { apply Forall_app. split; [done | by apply Forall_singleton]. }
    unfold body, P. destruct (decide (path ∈ visited st)); [done |].
    destruct (over_limit _ _); [done |].
    destruct (urlopen w (url_of path)) as [data | code | exc] eqn:Eu;
      [| done ..].
    destruct (can_write w dest_root (file_name_of path)); [| done].
    destruct data as [| | | | | | |items]; try done.
    destruct (dict_get items "references" (VDict [])) as [| | | | | | |refs] eqn:Er;
      try done.
    simpl. split; [| done].
    rewrite enqueue_refs_targets, <- (links_loaded w module path items refs Eu Er).
    apply Forall_app. split; [done |].
    apply Forall_forall. intros p' Hp'. by eapply reach_link.
  - split; simpl; [| constructor]. apply Forall_singleton. constructor.
  - split; constructor.
Qed.

(** ** Names that are found *)

Section FoundNames.

Import Essentials Populate.

Lemma json_tail_none rest :
  (rest = "" ∨ ∃ a r, rest = String a r ∧ name_char a = false) →
  json_tail rest = None.
Proof.
  intros [-> | (a & r & -> & Ha)]; [done |].
  cbn [json_tail]. rewrite Ha.
  destruct (ascii_dec "." a) as [<- | Hne]; [by vm_compute in Ha |].
  cbn [String.prefix]. by destruct (ascii_dec "." a).
Qed.

Lemma json_tail_extension rest :
  json_tail rest = None → json_tail (".json" +:+ rest) = Some ".json".
Proof.
  intros Hr.
  change (".json" +:+ rest)
    with (String "." (String "j" (String "s" (String "o" (String "n" rest))))).
  cbn [json_tail]. rewrite Hr. by destruct rest.
Qed.

Lemma json_tail_complete y rest :
  all_chars name_char y = true →
  json_tail rest = None →
  json_tail (y +:+ (".json" +:+ rest)) = Some (y +:+ ".json").
Proof.
  intros Hy Hr. induction y as [|a y IH].
  - rewrite !str_app_nil. by apply json_tail_extension.
  - cbn [all_chars] in Hy. apply andb_true_iff in Hy as [Ha Hy].
    change (String a y +:+ (".json" +:+ rest))
      with (String a (y +:+ (".json" +:+ rest))).
    change (String a y +:+ ".json") with (String a (y +:+ ".json")).
    cbn [json_tail]. by rewrite Ha, (IH Hy).
Qed.

(** X21: a text that starts with [essentials/], a non-empty stem of name
    characters and [.json], and then ends or goes on with a character
    that is not a name character, yields that name as its first match. *)
Theorem listed_name_is_found stem rest :
  stem ≠ "" →
  all_chars name_char stem = true →
  (rest = "" ∨ ∃ a r, rest = String a r ∧ name_char a = false) →
  List.hd_error (findall ("essentials/" +:+ (stem +:+ (".json" +:+ rest))))
  = Some (stem +:+ ".json").
Proof.
  intros Hne Hstem Hrest. apply json_tail_none in Hrest.
  destruct stem as [|a y]; [done |].
  cbn [all_chars] in Hstem. apply andb_true_iff in Hstem as [Ha Hy].
  assert (match_here ("essentials/" +:+ (String a y +:+ (".json" +:+ rest)))
          = Some (String a y +:+ ".json")) as Hm.
  { unfold match_here.
    change (after_prefix "essentials/"
              ("essentials/" +:+ (String a y +:+ (".json" +:+ rest))))
      with (Some (String a (y +:+ (".json" +:+ rest)))).
    cbn iota. by rewrite Ha, (json_tail_complete y rest Hy Hrest). }
  unfold findall.
  change ("essentials/" +:+ (String a y +:+ (".json" +:+ rest)))
    with (String "e" ("ssentials/" +:+ (String a y +:+ (".json" +:+ rest))))
    in *.
  cbn [findall_from]. by rewrite Hm.
Qed.

Lemma listed_name_is_found_witness :
  List.hd_error (findall "essentials/beta-v2.json and more")
  = Some "beta-v2.json".
Proof.
  apply (listed_name_is_found "beta-v2" " and more").
  - discriminate.
  - reflexivity.
  - right. by exists " "%char, "and more".
Defined.

End FoundNames.
